(** * The collision engine of xcape ([collision.py]), embedded in Rocq

    The engine works on pygame rectangles (integer coordinates), on
    [Vector2] values built from them, and on the entity collections of a
    scene.  The embedding follows [CollisionEngine] method by method:
    in-place mutation of a Python object becomes a functional update of the
    record that stands for it, a [for] loop over a collection becomes a map
    or a left fold, and [try ... except ValueError] becomes a handler on a
    small exception monad.

    Numbers.  Rectangle coordinates are Python/C integers, taken here as
    unbounded [Z]; the one rectangle the engine builds from computed
    numbers, the world boundary, is narrowed to a C [int] as [pg.Rect] does
    ([pg_Rect]).  [Vector2.angle_to] is a floating-point difference of two
    [atan2] values; the classifier only ever compares such angles, reduced
    modulo a full turn, with [<].  These comparisons are modelled exactly:
    module [Angle] decides them with integer cross products, and
    [Angle_ltb_degrees] relates the decision to the real-valued angles in
    degrees.  Doubles tell two directions apart as long as the rectangles
    are not huge: two distinct directions between integer points at most
    200000 apart differ by more than 1e-9 degrees, four orders of magnitude
    above the rounding of the computation, and equal directions give equal
    doubles.  On rectangles of enormous size nearby directions can collapse
    into one double, so the statements that say which side is returned for
    every pair of a family are made for rectangles of sizes up to 100000
    ([game_sized]).
    Velocity components are only compared with [0] and overwritten with [0]
    by the engine, so they are carried as [Z] as well. *)

From Stdlib Require Import ZArith Lia Bool List Reals Lra.
From stdpp Require Import base gmap strings.
Import ListNotations.
Open Scope Z_scope.

(** ** pygame: [Vector2] *)

Module Vector2.

Record t := mk { x : Z; y : Z }.

Definition cross (p q : t) : Z := x p * y q - y p * x q.

(** [atan2 (y p) (x p)] ranges over (-180, 180] degrees.  [zone] cuts
    that range into four consecutive pieces: the open lower half plane
    (negative angles), the ray of angle 0 (which holds the zero vector,
    as [atan2 0 0 = 0]), the open upper half plane, and the ray of angle
    180.  Coordinates come from Python integers, so no negative zero
    occurs. *)
Definition zone (p : t) : Z :=
  if y p <? 0 then 0
  else if 0 <? y p then 2
  else if x p <? 0 then 3
  else 1.

(** [atan2_ltb p q] decides [atan2 (y p) (x p) < atan2 (y q) (x q)]. *)
Definition atan2_ltb (p q : t) : bool :=
  if zone p <? zone q then true
  else if zone q <? zone p then false
  else if (zone p =? 0) || (zone p =? 2) then 0 <? cross p q
  else false.

(** The real number [atan2 (y p) (x p)], in radians, as the C library
    defines it. *)
Definition atan2 (p : t) : R :=
  if x p =? 0 then
    if 0 <? y p then (PI / 2)%R
    else if y p <? 0 then (- (PI / 2))%R
    else 0%R
  else if 0 <? x p then atan (IZR (y p) / IZR (x p))
  else if y p <? 0 then (atan (IZR (y p) / IZR (x p)) - PI)%R
  else (atan (IZR (y p) / IZR (x p)) + PI)%R.

End Vector2.

(** The zone of a vector together with the closed form [atan2] takes
    there. *)
Inductive zone_view (p : Vector2.t) : Z -> R -> Prop :=
| ZoneLower : Vector2.y p < 0 ->
    zone_view p 0 (- (PI / 2) - atan (IZR (Vector2.x p) / IZR (Vector2.y p)))
| ZoneZero : Vector2.y p = 0 -> 0 <= Vector2.x p -> zone_view p 1 0
| ZoneUpper : 0 < Vector2.y p ->
    zone_view p 2 (PI / 2 - atan (IZR (Vector2.x p) / IZR (Vector2.y p)))
| ZoneHalf : Vector2.y p = 0 -> Vector2.x p < 0 -> zone_view p 3 PI.

(** ** An angle [self.angle_to(other) % 360], kept exact *)

Module Angle.

Definition FULL_ROTATION : Z := 360.

(** An angle in [[0, 360)]: the number of degrees from the vector [self]
    to the vector [other], reduced modulo a full turn. *)
Record t := mk { self : Vector2.t; other : Vector2.t }.

(** [self.angle_to(other) % FULL_ROTATION] *)
Definition angle_to_mod (self other : Vector2.t) : t := mk self other.

(** The angle difference is negative before reduction, so that the
    reduction adds a full turn, exactly when [other] lies before [self]
    in the order of [atan2]. *)
Definition wraps (a : t) : bool := Vector2.atan2_ltb (other a) (self a).

(** [ltb a b] decides [a < b] for two angles measured from the same
    [self], exactly.  The code compares the two doubles; the two agree for
    vectors between the centres and corners of rectangles of sizes up to
    100000, and can differ on larger ones, where distinct directions may
    round to the same double. *)
Definition ltb (a b : t) : bool :=
  match wraps a, wraps b with
  | false, true => true
  | true, false => false
  | _, _ => Vector2.atan2_ltb (other a) (other b)
  end.

(** [Vector2.angle_to]: degrees from [self] to [other], in (-360, 360). *)
Definition angle_to (p q : Vector2.t) : R :=
  ((Vector2.atan2 q - Vector2.atan2 p) * 180 / PI)%R.

(** Python's [%] with the positive modulus 360 on a value of
    (-360, 360). *)
Definition mod_full (d : R) : R :=
  if Rlt_dec d 0 then (d + IZR FULL_ROTATION)%R else d.

Definition degrees (a : t) : R := mod_full (angle_to (self a) (other a)).

End Angle.

Infix "<<?" := Angle.ltb (at level 70, no associativity).

(** ** pygame: [Rect] *)

Module Rect.

Record t := mk { x : Z; y : Z; w : Z; h : Z }.

Definition left (r : t) : Z := x r.
Definition top (r : t) : Z := y r.
Definition right (r : t) : Z := x r + w r.
Definition bottom (r : t) : Z := y r + h r.
(** [x + (w >> 1)] and [y + (h >> 1)]: the half size is floored. *)
Definition centerx (r : t) : Z := x r + Z.shiftr (w r) 1.
Definition centery (r : t) : Z := y r + Z.shiftr (h r) 1.
Definition center (r : t) : Z * Z := (centerx r, centery r).
Definition topleft (r : t) : Z * Z := (left r, top r).
Definition topright (r : t) : Z * Z := (right r, top r).
Definition bottomright (r : t) : Z * Z := (right r, bottom r).
Definition bottomleft (r : t) : Z * Z := (left r, bottom r).
Definition size (r : t) : Z * Z := (w r, h r).

(** Assigning to an edge attribute moves the rectangle and keeps its
    size. *)
Definition set_left (v : Z) (r : t) : t := mk v (y r) (w r) (h r).
Definition set_top (v : Z) (r : t) : t := mk (x r) v (w r) (h r).
Definition set_right (v : Z) (r : t) : t := mk (v - w r) (y r) (w r) (h r).
Definition set_bottom (v : Z) (r : t) : t := mk (x r) (v - h r) (w r) (h r).

(** [Rect.colliderect]: rectangles of zero width or height collide with
    nothing; otherwise the (normalised) spans must overlap strictly on
    both axes, so rectangles that only touch do not collide. *)
Definition colliderect (a b : t) : bool :=
  if (w a =? 0) || (h a =? 0) || (w b =? 0) || (h b =? 0) then false
  else (Z.min (x a) (x a + w a) <? Z.max (x b) (x b + w b))
    && (Z.min (y a) (y a + h a) <? Z.max (y b) (y b + h b))
    && (Z.min (x b) (x b + w b) <? Z.max (x a) (x a + w a))
    && (Z.min (y b) (y b + h b) <? Z.max (y a) (y a + h a)).

(** [Rect.contains]: [b] lies completely inside [a]. *)
Definition contains (a b : t) : bool :=
  (x a <=? x b) && (y a <=? y b)
  && (x b + w b <=? x a + w a) && (y b + h b <=? y a + h a)
  && (x b <? x a + w a) && (y b <? y a + h a).

Definition positive (r : t) : Prop := 0 < w r /\ 0 < h r.

End Rect.

(** ** Results of the directional classifier *)

Inductive Side := Bottom | Left | Top | Right.

(** Any object with a [rect] attribute. *)
Class HasRect (A : Type) := rect_of : A -> Rect.t.

#[export] Instance Rect_HasRect : HasRect Rect.t := fun r => r.

Definition collide_rect {A B} `{HasRect A} `{HasRect B} (a : A) (b : B) : bool :=
  Rect.colliderect (rect_of a) (rect_of b).

Definition spritecollide {A B} `{HasRect A} `{HasRect B}
    (sprite : A) (group : list B) : list B :=
  List.filter (fun s => Rect.colliderect (rect_of sprite) (rect_of s)) group.

(** ** [CollisionEngine._checkCollisionDirection] *)

Definition _checkCollisionDirection {A B} `{HasRect A} `{HasRect B}
    (moving : A) (static : B) : option Side :=
  if collide_rect moving static then
    let '(x, y) := Rect.center (rect_of static) in
    let S00 := Rect.topleft (rect_of static) in
    let S10 := Rect.topright (rect_of static) in
    let S11 := Rect.bottomright (rect_of static) in
    let S01 := Rect.bottomleft (rect_of static) in
    let '(u, v) := Rect.center (rect_of moving) in
    let M00 := Rect.topleft (rect_of moving) in
    let M10 := Rect.topright (rect_of moving) in
    let M11 := Rect.bottomright (rect_of moving) in
    let M01 := Rect.bottomleft (rect_of moving) in
    let vec_M00 := Vector2.mk (x - fst S00) (y - snd S00) in
    let vec_M10 := Vector2.mk (x - fst S10) (y - snd S10) in
    let vec_M11 := Vector2.mk (x - fst S11) (y - snd S11) in
    let vec_M01 := Vector2.mk (x - fst S01) (y - snd S01) in
    let origin := vec_M00 in
    let angle_00 := Angle.angle_to_mod origin vec_M00 in
    let angle_10 := Angle.angle_to_mod origin vec_M10 in
    let angle_11 := Angle.angle_to_mod origin vec_M11 in
    let angle_01 := Angle.angle_to_mod origin vec_M01 in
    let displacement := Vector2.mk (x - u) (y - v) in
    let angle := Angle.angle_to_mod origin displacement in
    let isCollideBottom := (angle_00 <<? angle) && (angle <<? angle_10) in
    let isCollideLeft := (angle_10 <<? angle) && (angle <<? angle_11) in
    let isCollideTop := (angle_11 <<? angle) && (angle <<? angle_01) in
    let isCollideRight := angle_01 <<? angle in
    if isCollideBottom then Some Bottom
    else if isCollideLeft then Some Left
    else if isCollideTop then Some Top
    else if isCollideRight then Some Right
    else None
  else None.

(** ** Entities of a scene *)

Inductive Axis := AxisX | AxisY.

(** Modelled from the spec: the physics component
    ([xcape.components.physics]) is not part of the sources.  It holds the
    velocity vector the engine reads and overwrites; the named velocity
    impulses ([addVelocityX], [addVelocityY]) and the named displacements
    ([addDisplacementX], [addDisplacementY], the displacement accumulator)
    are recorded as requests, in the order issued. *)
Module Physics.

Record t := mk {
  velocity : Vector2.t;
  velocities : list (string * Axis * Z);
  displacements : list (string * Axis * Z)
}.

Definition set_velocity_x (v : Z) (p : t) : t :=
  mk (Vector2.mk v (Vector2.y (velocity p))) (velocities p) (displacements p).
Definition set_velocity_y (v : Z) (p : t) : t :=
  mk (Vector2.mk (Vector2.x (velocity p)) v) (velocities p) (displacements p).

Definition addVelocityX (name : string) (v : Z) (p : t) : t :=
  mk (velocity p) (velocities p ++ [(name, AxisX, v)]) (displacements p).
Definition addVelocityY (name : string) (v : Z) (p : t) : t :=
  mk (velocity p) (velocities p ++ [(name, AxisY, v)]) (displacements p).
Definition addDisplacementX (name : string) (d : Z) (p : t) : t :=
  mk (velocity p) (velocities p) (displacements p ++ [(name, AxisX, d)]).
Definition addDisplacementY (name : string) (d : Z) (p : t) : t :=
  mk (velocity p) (velocities p) (displacements p ++ [(name, AxisY, d)]).

End Physics.

Module Player.

Record t := mk {
  num : Z;
  rect : Rect.t;
  physics : Physics.t;
  isOnGround : bool;
  keybinds : gmap string Z
}.

Definition set_rect (r : Rect.t) (p : t) : t :=
  mk (num p) r (physics p) (isOnGround p) (keybinds p).
Definition set_physics (ph : Physics.t) (p : t) : t :=
  mk (num p) (rect p) ph (isOnGround p) (keybinds p).
Definition set_isOnGround (g : bool) (p : t) : t :=
  mk (num p) (rect p) (physics p) g (keybinds p).

Definition velocity (p : t) : Vector2.t := Physics.velocity (physics p).

End Player.

#[export] Instance Player_HasRect : HasRect Player.t := Player.rect.

(** Walls, static and directional platforms, spikes and bosses: the engine
    reads nothing but their rectangle. *)
Module Sprite.
Record t := mk { rect : Rect.t }.
End Sprite.

#[export] Instance Sprite_HasRect : HasRect Sprite.t := Sprite.rect.

Module MPlatform.
Record t := mk { rect : Rect.t; dx : Z; dy : Z }.
End MPlatform.

#[export] Instance MPlatform_HasRect : HasRect MPlatform.t := MPlatform.rect.

Module Switch.
Record t := mk { rect : Rect.t; isOn : bool }.

(** Modelled from the spec: the switch class is not part of the sources;
    [turnOff] turns the switch off and leaves its rectangle alone. *)
Definition turnOff (s : t) : t := mk (rect s) false.
End Switch.

#[export] Instance Switch_HasRect : HasRect Switch.t := Switch.rect.

Module Door.
Record t := mk { rect : Rect.t; isClosed : bool }.
End Door.

#[export] Instance Door_HasRect : HasRect Door.t := Door.rect.

Module Scene.

Record t := mk {
  players : list Player.t;
  walls : list Sprite.t;
  sPlatforms : list Sprite.t;
  dPlatforms : list Sprite.t;
  mPlatforms : list MPlatform.t;
  switches : list Switch.t;
  doors : list Door.t;
  spikes : list Sprite.t;
  bosses : list Sprite.t;
  rect : Rect.t
}.

Definition set_players (ps : list Player.t) (s : t) : t :=
  mk ps (walls s) (sPlatforms s) (dPlatforms s) (mPlatforms s) (switches s)
     (doors s) (spikes s) (bosses s) (rect s).
Definition set_switches (sw : list Switch.t) (s : t) : t :=
  mk (players s) (walls s) (sPlatforms s) (dPlatforms s) (mPlatforms s) sw
     (doors s) (spikes s) (bosses s) (rect s).

End Scene.

(** Requests sent to the scene with [messageScene]. *)
Inductive Message :=
| Death (num : Z)
| Complete.

(** The audio component: only its [state] attribute is written by the
    engine. *)
Module AudioComponent.
Record t := mk { state : string }.
End AudioComponent.

(** ** Exceptions *)

Inductive Exn := ValueError | KeyError.

Inductive Result (A : Type) :=
| Ok (a : A)
| Raise (e : Exn).
Arguments Ok {A} a.
Arguments Raise {A} e.

#[export] Instance Result_ret : MRet Result := fun A a => Ok a.

#[export] Instance Result_bind : MBind Result := fun A B k m =>
  match m with
  | Ok a => k a
  | Raise e => Raise e
  end.

(** [try: body except ValueError: pass], where [rest] is the state the
    body had reached when it raised. *)
Definition except_ValueError {A} (body : Result A) (rest : A) : Result A :=
  match body with
  | Raise ValueError => Ok rest
  | r => r
  end.

(** [a, b = xs] *)
Definition unpack2 {A} (xs : list A) : Result (A * A) :=
  match xs with
  | [a; b] => Ok (a, b)
  | _ => Raise ValueError
  end.

(** [d[k]] *)
Definition getitem (d : gmap string Z) (k : string) : Result Z :=
  match d !! k with
  | Some v => Ok v
  | None => Raise KeyError
  end.

(** ** Events *)

Inductive Event :=
| KEYDOWN (key : Z)
| OtherEvent.

Definition K_RETURN : Z := 13.

(** ** The engine *)

Record CollisionEngine := mkEngine {
  scene : Scene.t;
  audio : AudioComponent.t;
  (** Modelled from the spec: [GameObject.messageScene] is not part of the
      sources; the requests it sends to the scene are fire-and-forget and
      are collected here in the order sent. *)
  sent : list Message
}.

Definition set_scene (s : Scene.t) (self : CollisionEngine) : CollisionEngine :=
  mkEngine s (audio self) (sent self).
Definition set_audio (a : AudioComponent.t) (self : CollisionEngine) : CollisionEngine :=
  mkEngine (scene self) a (sent self).
Definition set_players (ps : list Player.t) (self : CollisionEngine) : CollisionEngine :=
  set_scene (Scene.set_players ps (scene self)) self.
Definition messageScene (m : Message) (self : CollisionEngine) : CollisionEngine :=
  mkEngine (scene self) (audio self) (sent self ++ [m]).

(** *** [_resolveBasicCollision] *)

(** The body of the loop over [hits]. *)
Definition _resolveBasicCollision_wall {B} `{HasRect B}
    (moving : Player.t) (wall : B) : Player.t :=
  let direction := _checkCollisionDirection moving wall in
  match direction with
  | Some Bottom =>
      let moving := Player.set_rect (Rect.set_bottom (Rect.top (rect_of wall)) (Player.rect moving)) moving in
      let moving := Player.set_physics (Physics.set_velocity_y 0 (Player.physics moving)) moving in
      Player.set_isOnGround true moving
  | Some Left =>
      let moving := Player.set_rect (Rect.set_left (Rect.right (rect_of wall)) (Player.rect moving)) moving in
      Player.set_physics (Physics.set_velocity_x 0 (Player.physics moving)) moving
  | Some Top =>
      let moving := Player.set_rect (Rect.set_top (Rect.bottom (rect_of wall)) (Player.rect moving)) moving in
      Player.set_physics (Physics.set_velocity_y 0 (Player.physics moving)) moving
  | Some Right =>
      let moving := Player.set_rect (Rect.set_right (Rect.left (rect_of wall)) (Player.rect moving)) moving in
      Player.set_physics (Physics.set_velocity_x 0 (Player.physics moving)) moving
  | None => moving
  end.

(** [hits] is computed once, from the rectangle the mover has on entry;
    the corrections are then applied in the order of the group. *)
Definition _resolveBasicCollision {B} `{HasRect B}
    (moving : Player.t) (group : list B) : Player.t :=
  let hits := spritecollide moving group in
  fold_left _resolveBasicCollision_wall hits moving.

(** *** The category resolvers *)

Definition resolveWallCollisions (self : CollisionEngine) : CollisionEngine :=
  set_players
    (map (fun player => _resolveBasicCollision player (Scene.walls (scene self)))
         (Scene.players (scene self)))
    self.

Definition resolveSPlatformCollisions (self : CollisionEngine) : CollisionEngine :=
  set_players
    (map (fun player => _resolveBasicCollision player (Scene.sPlatforms (scene self)))
         (Scene.players (scene self)))
    self.

(** The body of the loop over [hits] in [resolveDPlatformCollisions]. *)
Definition resolveDPlatformCollisions_platform
    (player : Player.t) (platform : Sprite.t) : Player.t :=
  let direction := _checkCollisionDirection player platform in
  match direction with
  | Some Bottom =>
      let tol := Z.abs (Rect.bottom (Player.rect player) - Rect.top (rect_of platform)) in
      if tol <? 30 then
        let player := Player.set_rect (Rect.set_bottom (Rect.top (rect_of platform)) (Player.rect player)) player in
        let player := Player.set_isOnGround true player in
        if Vector2.y (Player.velocity player) >? 0 then
          Player.set_physics (Physics.set_velocity_y 0 (Player.physics player)) player
        else player
      else player
  | _ => player
  end.

Definition resolveDPlatformCollisions_player
    (dPlatforms : list Sprite.t) (player : Player.t) : Player.t :=
  let hits := spritecollide player dPlatforms in
  fold_left resolveDPlatformCollisions_platform hits player.

Definition resolveDPlatformCollisions (self : CollisionEngine) : CollisionEngine :=
  set_players
    (map (resolveDPlatformCollisions_player (Scene.dPlatforms (scene self)))
         (Scene.players (scene self)))
    self.

Definition resolveMPlatformCollisions_player
    (mPlatforms : list MPlatform.t) (player : Player.t) : Player.t :=
  let hits := spritecollide player mPlatforms in
  let player := _resolveBasicCollision player mPlatforms in
  fold_left
    (fun player platform =>
       let ph := Physics.addDisplacementX "platform" (MPlatform.dx platform) (Player.physics player) in
       let ph := Physics.addDisplacementY "platform" (MPlatform.dy platform) ph in
       Player.set_physics ph player)
    hits player.

Definition resolveMPlatformCollisions (self : CollisionEngine) : CollisionEngine :=
  set_players
    (map (resolveMPlatformCollisions_player (Scene.mPlatforms (scene self)))
         (Scene.players (scene self)))
    self.

(** One switch of [switchesOn] against every player. *)
Definition resolveSwitchCollisions_switch
    (players : list Player.t) (s : Switch.t) : Switch.t :=
  fold_left
    (fun s player =>
       if collide_rect player s then
         if negb (Vector2.x (Player.velocity player) =? 0)
            || negb (Vector2.y (Player.velocity player) =? 0)
         then Switch.turnOff s
         else s
       else s)
    players s.

(** [switchesOn] holds the switches that are on when the resolver starts;
    the others are not visited. *)
Definition resolveSwitchCollisions (self : CollisionEngine) : CollisionEngine :=
  set_scene
    (Scene.set_switches
       (map (fun s => if Switch.isOn s
                      then resolveSwitchCollisions_switch (Scene.players (scene self)) s
                      else s)
            (Scene.switches (scene self)))
       (scene self))
    self.

Definition resolveDoorCollisions (self : CollisionEngine) : CollisionEngine :=
  fold_left
    (fun self player =>
       let hits := spritecollide player (Scene.doors (scene self)) in
       let doorsClosed := List.filter Door.isClosed (Scene.doors (scene self)) in
       match hits, doorsClosed with
       | _ :: _, [] => messageScene Complete self
       | _, _ => self
       end)
    (Scene.players (scene self)) self.

Definition resolveSpikeCollisions (self : CollisionEngine) : CollisionEngine :=
  fold_left
    (fun self player =>
       let hits := spritecollide player (Scene.spikes (scene self)) in
       match hits with
       | _ :: _ => messageScene (Death (Player.num player)) self
       | [] => self
       end)
    (Scene.players (scene self)) self.

Definition resolveBossCollisions (self : CollisionEngine) : CollisionEngine :=
  fold_left
    (fun self player =>
       let hits := spritecollide player (Scene.bosses (scene self)) in
       match hits with
       | _ :: _ => messageScene (Death (Player.num player)) self
       | [] => self
       end)
    (Scene.players (scene self)) self.

(** A Python integer stored in a C [int]: its low 32 bits, signed. *)
Definition c_int (z : Z) : Z := (z + 2147483648) mod 4294967296 - 2147483648.

(** [pg.Rect(x, y, w, h)]: the four numbers are stored as C [int]s. *)
Definition pg_Rect (x y w h : Z) : Rect.t :=
  Rect.mk (c_int x) (c_int y) (c_int w) (c_int h).

(** The rectangle built by [resolveBoundaryCollision]. *)
Definition boundary (self : CollisionEngine) : Rect.t :=
  let '(w, h) := Rect.size (Scene.rect (scene self)) in
  pg_Rect (-1000) (-1000) (w + 2000) (h + 2000).

Definition resolveBoundaryCollision (self : CollisionEngine) : CollisionEngine :=
  let boundary := boundary self in
  fold_left
    (fun self player =>
       if negb (Rect.contains boundary (rect_of player))
       then messageScene (Death (Player.num player)) self
       else self)
    (Scene.players (scene self)) self.

(** *** [resolvePlayerCollisions] *)

Definition resolvePlayerCollisions (self : CollisionEngine) (explosionSpeed : Z)
    : Result CollisionEngine :=
  except_ValueError
    ('(p1, p2) ← unpack2 (Scene.players (scene self));
     if collide_rect p1 p2 then
       let ph1 := Physics.addVelocityY "collision" (- explosionSpeed) (Player.physics p1) in
       let ph2 := Physics.addVelocityY "collision" (- explosionSpeed) (Player.physics p2) in
       if Rect.x (Player.rect p2) >? Rect.x (Player.rect p1) then
         let ph1 := Physics.addVelocityX "collision" (- explosionSpeed) ph1 in
         let ph2 := Physics.addVelocityX "collision" explosionSpeed ph2 in
         mret (set_players [Player.set_physics ph1 p1; Player.set_physics ph2 p2] self)
       else
         let ph1 := Physics.addVelocityX "collision" explosionSpeed ph1 in
         let ph2 := Physics.addVelocityX "collision" (- explosionSpeed) ph2 in
         mret (set_players [Player.set_physics ph1 p1; Player.set_physics ph2 p2] self)
     else mret self)
    self.

(** *** [eventHandler] and [update] *)

Definition eventHandler (self : CollisionEngine) (event : Event)
    : Result CollisionEngine :=
  match event with
  | KEYDOWN key =>
      let self := if key =? K_RETURN then resolveDoorCollisions self else self in
      except_ValueError
        ('(p1, p2) ← unpack2 (Scene.players (scene self));
         p1Jump ← getitem (Player.keybinds p1) "coop_jump";
         p2Jump ← getitem (Player.keybinds p2) "coop_jump";
         if (key =? p1Jump) || (key =? p2Jump) then
           self ← resolvePlayerCollisions self 30;
           mret (set_audio (AudioComponent.mk "explosion") self)
         else mret self)
        self
  | OtherEvent => Ok self
  end.

(** [AudioComponent.update] is not part of the sources: the per-tick pass
    takes it as the parameter [audio_update]. *)
Definition update (audio_update : AudioComponent.t -> AudioComponent.t)
    (self : CollisionEngine) : CollisionEngine :=
  let self := resolveWallCollisions self in
  let self := resolveSwitchCollisions self in
  let self := resolveSPlatformCollisions self in
  let self := resolveDPlatformCollisions self in
  let self := resolveMPlatformCollisions self in
  let self := resolveSpikeCollisions self in
  let self := resolveBossCollisions self in
  let self := resolveBoundaryCollision self in
  set_audio (audio_update (audio self)) self.


(** ** Vocabulary of the properties *)

(** The ways a mover can come at a static rectangle. *)
Inductive Approach := FromAbove | FromLeft | FromBelow | FromRight.

(** The centre of [m] lies strictly beyond one side of [s] and within the
    span of [s] on the other axis. *)
Definition centre_beyond (a : Approach) (m s : Rect.t) : Prop :=
  match a with
  | FromAbove =>
      Rect.centery m < Rect.top s /\ Rect.left s <= Rect.centerx m <= Rect.right s
  | FromBelow =>
      Rect.bottom s < Rect.centery m /\ Rect.left s <= Rect.centerx m <= Rect.right s
  | FromLeft =>
      Rect.centerx m < Rect.left s /\ Rect.top s <= Rect.centery m <= Rect.bottom s
  | FromRight =>
      Rect.right s < Rect.centerx m /\ Rect.top s <= Rect.centery m <= Rect.bottom s
  end.

(** [m] sticks out of [s] through one side only. *)
Definition protrudes_only (a : Approach) (m s : Rect.t) : Prop :=
  match a with
  | FromAbove =>
      Rect.top m < Rect.top s /\ Rect.bottom m <= Rect.bottom s
      /\ Rect.left s <= Rect.left m /\ Rect.right m <= Rect.right s
  | FromBelow =>
      Rect.bottom s < Rect.bottom m /\ Rect.top s <= Rect.top m
      /\ Rect.left s <= Rect.left m /\ Rect.right m <= Rect.right s
  | FromLeft =>
      Rect.left m < Rect.left s /\ Rect.right m <= Rect.right s
      /\ Rect.top s <= Rect.top m /\ Rect.bottom m <= Rect.bottom s
  | FromRight =>
      Rect.right s < Rect.right m /\ Rect.left s <= Rect.left m
      /\ Rect.top s <= Rect.top m /\ Rect.bottom m <= Rect.bottom s
  end.

(** The side the classifier names for each approach: the edge of the mover
    that touches the static rectangle, which is the edge the Basic Resolver
    then repositions. *)
Definition contact_side (a : Approach) : Side :=
  match a with
  | FromAbove => Bottom
  | FromLeft => Right
  | FromBelow => Top
  | FromRight => Left
  end.

(** The side named after the approach itself: above gives bottom, left
    gives left, below gives top, right gives right. *)
Definition approach_side (a : Approach) : Side :=
  match a with
  | FromAbove => Bottom
  | FromLeft => Left
  | FromBelow => Top
  | FromRight => Right
  end.

(** The four spokes of a static rectangle, from its corners to its centre,
    and the vector from the centre of the mover to the centre of the
    static rectangle. *)
Definition spokes (static : Rect.t) : list Vector2.t :=
  let '(x, y) := Rect.center static in
  [ Vector2.mk (x - Rect.left static) (y - Rect.top static);
    Vector2.mk (x - Rect.right static) (y - Rect.top static);
    Vector2.mk (x - Rect.right static) (y - Rect.bottom static);
    Vector2.mk (x - Rect.left static) (y - Rect.bottom static) ].

Definition displacement (moving static : Rect.t) : Vector2.t :=
  let '(x, y) := Rect.center static in
  let '(u, v) := Rect.center moving in
  Vector2.mk (x - u) (y - v).

(** The centre-to-centre angle, measured from the first spoke, equals the
    angle of one of the spokes. *)
Definition on_boundary (moving static : Rect.t) : Prop :=
  let origin := hd (Vector2.mk 0 0) (spokes static) in
  exists k, In k (spokes static)
    /\ Angle.degrees (Angle.angle_to_mod origin (displacement moving static))
       = Angle.degrees (Angle.angle_to_mod origin k).

(** A rectangle grown by [margin] on each of its four sides. *)
Definition expanded (margin : Z) (r : Rect.t) : Rect.t :=
  Rect.mk (Rect.x r - margin) (Rect.y r - margin)
          (Rect.w r + 2 * margin) (Rect.h r + 2 * margin).

(** [b] lies inside [a], edges included. *)
Definition inside (a b : Rect.t) : Prop :=
  Rect.left a <= Rect.left b /\ Rect.top a <= Rect.top b
  /\ Rect.right b <= Rect.right a /\ Rect.bottom b <= Rect.bottom a.

(** Width and height of every rectangle of a scene, category by
    category. *)
Definition sizes {A} `{HasRect A} (l : list A) : list (Z * Z) :=
  map (fun e => Rect.size (rect_of e)) l.

Definition entity_sizes (s : Scene.t) : list (list (Z * Z)) :=
  [ sizes (Scene.players s); sizes (Scene.walls s); sizes (Scene.sPlatforms s);
    sizes (Scene.dPlatforms s); sizes (Scene.mPlatforms s); sizes (Scene.switches s);
    sizes (Scene.doors s); sizes (Scene.spikes s); sizes (Scene.bosses s);
    [Rect.size (Scene.rect s)] ].

(** A player is moving when its velocity is nonzero on some axis. *)
Definition moving (p : Player.t) : Prop :=
  Vector2.x (Player.velocity p) <> 0 \/ Vector2.y (Player.velocity p) <> 0.

(** A moving player overlaps the switch. *)
Definition touches_moving (s : Switch.t) (player : Player.t) : Prop :=
  collide_rect player s = true /\ moving player.

(** A rectangle of positive size, at most 100000 wide and high: the
    sizes on which the comparisons of doubles made by the classifier agree
    with the exact ones. *)
Definition game_sized (r : Rect.t) : Prop :=
  0 < Rect.w r <= 100000 /\ 0 < Rect.h r <= 100000.

(** The number fits a C [int]. *)
Definition fits_c_int (z : Z) : Prop := -2147483648 <= z < 2147483648.

(** What the directional platforms do with a player and one platform it
    has hit: within the tolerance of 30 a bottom contact snaps the player
    onto the platform, anything else leaves the player as it is. *)
Definition tolerance_step (player : Player.t) (platform : Sprite.t) (player' : Player.t)
    : Prop :=
  let gap := Z.abs (Rect.bottom (Player.rect player) - Rect.top (rect_of platform)) in
  (_checkCollisionDirection player platform = Some Bottom -> 30 <= gap ->
     player' = player)
  /\ (_checkCollisionDirection player platform = Some Bottom -> gap < 30 ->
        Rect.bottom (Player.rect player') = Rect.top (rect_of platform)
        /\ Rect.left (Player.rect player') = Rect.left (Player.rect player)
        /\ Rect.size (Player.rect player') = Rect.size (Player.rect player)
        /\ Player.isOnGround player' = true
        /\ (0 < Vector2.y (Player.velocity player) ->
              Vector2.y (Player.velocity player') = 0)
        /\ (Vector2.y (Player.velocity player) <= 0 ->
              Vector2.y (Player.velocity player') = Vector2.y (Player.velocity player))
        /\ Vector2.x (Player.velocity player') = Vector2.x (Player.velocity player)
        /\ Player.num player' = Player.num player
        /\ Player.keybinds player' = Player.keybinds player
        /\ Physics.velocities (Player.physics player')
           = Physics.velocities (Player.physics player)
        /\ Physics.displacements (Player.physics player')
           = Physics.displacements (Player.physics player))
  /\ (_checkCollisionDirection player platform <> Some Bottom ->
        player' = player).

(** A player taken through the platforms it has hit, one after the other,
    each step made on the player as the steps before left it. *)
Inductive passes_over : Player.t -> list Sprite.t -> Player.t -> Prop :=
| passes_none (player : Player.t) : passes_over player [] player
| passes_step (player next player' : Player.t) (platform : Sprite.t) (hits : list Sprite.t) :
    tolerance_step player platform next ->
    passes_over next hits player' ->
    passes_over player (platform :: hits) player'.

(** ** Vocabulary of the further properties *)

(** A rectangle moved by an offset. *)
Definition translate (dx dy : Z) (r : Rect.t) : Rect.t :=
  Rect.mk (Rect.x r + dx) (Rect.y r + dy) (Rect.w r) (Rect.h r).

(** What a pass of the Basic Resolver may change of a player: the
    number, the key bindings and the requests stay, the ground flag is not
    cleared, and a velocity component stays or becomes 0. *)
Definition corrected (m m' : Player.t) : Prop :=
  Player.num m' = Player.num m
  /\ Player.keybinds m' = Player.keybinds m
  /\ Physics.velocities (Player.physics m') = Physics.velocities (Player.physics m)
  /\ Physics.displacements (Player.physics m') = Physics.displacements (Player.physics m)
  /\ (Player.isOnGround m = true -> Player.isOnGround m' = true)
  /\ (Vector2.x (Player.velocity m') = Vector2.x (Player.velocity m)
      \/ Vector2.x (Player.velocity m') = 0)
  /\ (Vector2.y (Player.velocity m') = Vector2.y (Player.velocity m)
      \/ Vector2.y (Player.velocity m') = 0).

(** What a pass over the directional platforms may change of a player. *)
Definition landed (p p' : Player.t) : Prop :=
  corrected p p'
  /\ Rect.left (Player.rect p') = Rect.left (Player.rect p)
  /\ Vector2.x (Player.velocity p') = Vector2.x (Player.velocity p)
  /\ (Vector2.y (Player.velocity p') = Vector2.y (Player.velocity p)
      \/ 0 < Vector2.y (Player.velocity p) /\ Vector2.y (Player.velocity p') = 0)
  /\ (Player.rect p' = Player.rect p \/ Player.isOnGround p' = true).

(** The displacement requests a moving platform gives to a player. *)
Definition carried (platform : MPlatform.t) : list (string * Axis * Z) :=
  [ ("platform", AxisX, MPlatform.dx platform);
    ("platform", AxisY, MPlatform.dy platform) ].

(** [sprite] overlaps some member of [group]: the hits are not empty. *)
Definition overlaps_any {A B} `{HasRect A} `{HasRect B} (sprite : A) (group : list B) : bool :=
  existsb (fun s => collide_rect sprite s) group.

(** The switch pass on one switch: only a switch that is on is visited. *)
Definition switch_pass (players : list Player.t) (s : Switch.t) : Switch.t :=
  if Switch.isOn s then resolveSwitchCollisions_switch players s else s.

(** The passes of the per-tick pass that move a player, in their order. *)
Definition tick_player (s : Scene.t) (p : Player.t) : Player.t :=
  let p := _resolveBasicCollision p (Scene.walls s) in
  let p := _resolveBasicCollision p (Scene.sPlatforms s) in
  let p := resolveDPlatformCollisions_player (Scene.dPlatforms s) p in
  resolveMPlatformCollisions_player (Scene.mPlatforms s) p.

(** What the per-tick pass may change of a player. *)
Definition ticked (p p' : Player.t) : Prop :=
  Player.num p' = Player.num p
  /\ Player.keybinds p' = Player.keybinds p
  /\ Physics.velocities (Player.physics p') = Physics.velocities (Player.physics p)
  /\ (exists more, Physics.displacements (Player.physics p')
                   = Physics.displacements (Player.physics p) ++ more)
  /\ (Player.isOnGround p = true -> Player.isOnGround p' = true)
  /\ (Vector2.x (Player.velocity p') = Vector2.x (Player.velocity p)
      \/ Vector2.x (Player.velocity p') = 0)
  /\ (Vector2.y (Player.velocity p') = Vector2.y (Player.velocity p)
      \/ Vector2.y (Player.velocity p') = 0).

(** * Properties *)

(** ** The exact angle comparison agrees with the real-valued angles *)

Lemma frac_lt (a b c d : Z) :
  0 < b -> 0 < d -> (IZR a / IZR b < IZR c / IZR d)%R <-> a * d < c * b.
Proof.
  intros Hb Hd.
  assert (Hb' : (0 < IZR b)%R) by (apply IZR_lt; lia).
  assert (Hd' : (0 < IZR d)%R) by (apply IZR_lt; lia).
  assert (E : (IZR c / IZR d - IZR a / IZR b = IZR (c * b - a * d) / (IZR b * IZR d))%R).
  { rewrite minus_IZR, !mult_IZR. field. split; lra. }
  assert (Hbd : (0 < IZR b * IZR d)%R) by (apply Rmult_lt_0_compat; assumption).
  split; intros H.
  - assert (H1 : (0 < IZR (c * b - a * d) / (IZR b * IZR d))%R) by (rewrite <- E; lra).
    assert (H2 : (0 < IZR (c * b - a * d))%R).
    { replace (IZR (c * b - a * d)) with (IZR (c * b - a * d) / (IZR b * IZR d) * (IZR b * IZR d))%R
        by (field; split; lra).
      apply Rmult_lt_0_compat; assumption. }
    apply lt_IZR in H2. lia.
  - assert (H2 : (0 < IZR (c * b - a * d))%R) by (apply IZR_lt; lia).
    assert (H1 : (0 < IZR (c * b - a * d) / (IZR b * IZR d))%R).
    { apply Rdiv_lt_0_compat; assumption. }
    lra.
Qed.

Lemma atan_lt_iff (a b : R) : (atan a < atan b)%R <-> (a < b)%R.
Proof.
  split.
  - intros H. destruct (Rlt_le_dec a b) as [L | L]; [assumption|].
    destruct L as [L | L].
    + apply atan_increasing in L. lra.
    + subst. lra.
  - apply atan_increasing.
Qed.

Lemma atan2_upper p :
  0 < Vector2.y p -> Vector2.atan2 p = (PI / 2 - atan (IZR (Vector2.x p) / IZR (Vector2.y p)))%R.
Proof.
  intros Hy. destruct p as [a b]. cbn in *. unfold Vector2.atan2. cbn.
  assert (Hb : (0 < IZR b)%R) by (apply IZR_lt; lia).
  destruct (Z.eqb_spec a 0) as [-> | Ha].
  - destruct (Z.ltb_spec 0 b); [|lia].
    unfold Rdiv. rewrite Rmult_0_l, atan_0. lra.
  - destruct (Z.ltb_spec 0 a) as [Hp | Hn].
    + assert (Ha' : (0 < IZR a)%R) by (apply IZR_lt; lia).
      replace (IZR b / IZR a)%R with (/ (IZR a / IZR b))%R by (field; split; lra).
      rewrite atan_inv; [lra|]. apply Rdiv_lt_0_compat; assumption.
    + destruct (Z.ltb_spec b 0); [lia|].
      assert (Ha' : (IZR a < 0)%R) by (apply IZR_lt; lia).
      replace (IZR b / IZR a)%R with (- / (- IZR a / IZR b))%R by (field; split; lra).
      rewrite atan_opp, atan_inv.
      * replace (- IZR a / IZR b)%R with (- (IZR a / IZR b))%R by (field; lra).
        rewrite atan_opp. lra.
      * apply Rdiv_lt_0_compat; lra.
Qed.

Lemma atan2_lower p :
  Vector2.y p < 0 -> Vector2.atan2 p = (- (PI / 2) - atan (IZR (Vector2.x p) / IZR (Vector2.y p)))%R.
Proof.
  intros Hy. destruct p as [a b]. cbn in *. unfold Vector2.atan2. cbn.
  assert (Hb : (IZR b < 0)%R) by (apply IZR_lt; lia).
  destruct (Z.eqb_spec a 0) as [-> | Ha].
  - destruct (Z.ltb_spec 0 b); [lia|]. destruct (Z.ltb_spec b 0); [|lia].
    unfold Rdiv. rewrite Rmult_0_l, atan_0. lra.
  - destruct (Z.ltb_spec 0 a) as [Hp | Hn].
    + assert (Ha' : (0 < IZR a)%R) by (apply IZR_lt; lia).
      replace (IZR b / IZR a)%R with (- / (IZR a / - IZR b))%R by (field; split; lra).
      rewrite atan_opp, atan_inv.
      * replace (IZR a / - IZR b)%R with (- (IZR a / IZR b))%R by (field; lra).
        rewrite atan_opp. lra.
      * apply Rdiv_lt_0_compat; lra.
    + destruct (Z.ltb_spec b 0); [|lia].
      assert (Ha' : (IZR a < 0)%R) by (apply IZR_lt; lia).
      replace (IZR b / IZR a)%R with (/ (IZR a / IZR b))%R by (field; split; lra).
      rewrite atan_inv; [lra|].
      replace (IZR a / IZR b)%R with ((- IZR a) / (- IZR b))%R by (field; lra).
      apply Rdiv_lt_0_compat; lra.
Qed.

Lemma atan2_zero p : Vector2.y p = 0 -> 0 <= Vector2.x p -> Vector2.atan2 p = 0%R.
Proof.
  destruct p as [a b]. cbn. intros -> Ha. unfold Vector2.atan2. cbn.
  destruct (Z.eqb_spec a 0); [reflexivity|].
  destruct (Z.ltb_spec 0 a); [|lia].
  unfold Rdiv. rewrite Rmult_0_l. apply atan_0.
Qed.

Lemma atan2_half p : Vector2.y p = 0 -> Vector2.x p < 0 -> Vector2.atan2 p = PI.
Proof.
  destruct p as [a b]. cbn. intros -> Ha. unfold Vector2.atan2. cbn.
  destruct (Z.eqb_spec a 0); [lia|].
  destruct (Z.ltb_spec 0 a); [lia|].
  unfold Rdiv. rewrite Rmult_0_l, atan_0. lra.
Qed.

Lemma zone_atan2 p : zone_view p (Vector2.zone p) (Vector2.atan2 p).
Proof.
  destruct (Z.lt_trichotomy (Vector2.y p) 0) as [H | [H | H]].
  - rewrite (atan2_lower p H). unfold Vector2.zone.
    destruct (Z.ltb_spec (Vector2.y p) 0); [|lia]. now constructor.
  - destruct (Z.lt_ge_cases (Vector2.x p) 0) as [Hx | Hx].
    + rewrite (atan2_half p H Hx). unfold Vector2.zone.
      destruct (Z.ltb_spec (Vector2.y p) 0); [lia|].
      destruct (Z.ltb_spec 0 (Vector2.y p)); [lia|].
      destruct (Z.ltb_spec (Vector2.x p) 0); [|lia]. now constructor.
    + rewrite (atan2_zero p H Hx). unfold Vector2.zone.
      destruct (Z.ltb_spec (Vector2.y p) 0); [lia|].
      destruct (Z.ltb_spec 0 (Vector2.y p)); [lia|].
      destruct (Z.ltb_spec (Vector2.x p) 0); [lia|]. now constructor.
  - rewrite (atan2_upper p H). unfold Vector2.zone.
    destruct (Z.ltb_spec (Vector2.y p) 0); [lia|].
    destruct (Z.ltb_spec 0 (Vector2.y p)); [|lia]. now constructor.
Qed.

Lemma atan2_range p : (- PI < Vector2.atan2 p <= PI)%R.
Proof.
  pose proof PI_RGT_0.
  destruct (zone_atan2 p);
    try match goal with |- context [atan ?t] => pose proof (atan_bound t) end; lra.
Qed.

Lemma atan2_ltb_spec p q :
  Vector2.atan2_ltb p q = true <-> (Vector2.atan2 p < Vector2.atan2 q)%R.
Proof.
  unfold Vector2.atan2_ltb, Vector2.cross.
  pose proof PI_RGT_0 as Hpi.
  destruct (zone_atan2 p) as [Hp | Hp Hp' | Hp | Hp Hp'];
  destruct (zone_atan2 q) as [Hq | Hq Hq' | Hq | Hq Hq']; cbn;
    repeat match goal with |- context [atan ?t] =>
      lazymatch goal with
      | _ : (- PI / 2 < atan t < PI / 2)%R |- _ => fail
      | _ => pose proof (atan_bound t)
      end end;
    try (split; [intros _; lra | reflexivity]);
    try (split; [discriminate | intros; lra]).
  - (* both below *)
    rewrite Z.ltb_lt.
    transitivity (atan (IZR (Vector2.x q) / IZR (Vector2.y q))
                  < atan (IZR (Vector2.x p) / IZR (Vector2.y p)))%R; [|split; lra].
    rewrite atan_lt_iff.
    replace (IZR (Vector2.x q) / IZR (Vector2.y q))%R
      with (IZR (- Vector2.x q) / IZR (- Vector2.y q))%R
      by (rewrite !opp_IZR; field; apply not_0_IZR; lia).
    replace (IZR (Vector2.x p) / IZR (Vector2.y p))%R
      with (IZR (- Vector2.x p) / IZR (- Vector2.y p))%R
      by (rewrite !opp_IZR; field; apply not_0_IZR; lia).
    rewrite frac_lt by lia. lia.
  - (* both above *)
    rewrite Z.ltb_lt.
    transitivity (atan (IZR (Vector2.x q) / IZR (Vector2.y q))
                  < atan (IZR (Vector2.x p) / IZR (Vector2.y p)))%R; [|split; lra].
    rewrite atan_lt_iff, frac_lt by lia. lia.
Qed.

Lemma mod_full_range (d : R) : (-360 < d < 360)%R -> (0 <= Angle.mod_full d < 360)%R.
Proof.
  intros H. unfold Angle.mod_full, Angle.FULL_ROTATION. destruct (Rlt_dec d 0); lra.
Qed.

Lemma angle_to_neg p q :
  (Angle.angle_to p q < 0)%R <-> Vector2.atan2_ltb q p = true.
Proof.
  rewrite atan2_ltb_spec. unfold Angle.angle_to.
  pose proof PI_RGT_0 as Hpi.
  assert (K : (0 < 180 / PI)%R) by (apply Rdiv_lt_0_compat; lra).
  replace ((Vector2.atan2 q - Vector2.atan2 p) * 180 / PI)%R
    with ((Vector2.atan2 q - Vector2.atan2 p) * (180 / PI))%R by (field; lra).
  split; intros H.
  - assert (Vector2.atan2 q - Vector2.atan2 p < 0)%R; [|lra].
    destruct (Rlt_le_dec (Vector2.atan2 q - Vector2.atan2 p) 0) as [L | L]; [assumption|].
    pose proof (Rmult_le_pos _ _ L (Rlt_le _ _ K)). lra.
  - assert (0 < (Vector2.atan2 p - Vector2.atan2 q) * (180 / PI))%R
      by (apply Rmult_lt_0_compat; lra). lra.
Qed.

Lemma angle_to_lt o p q :
  (Angle.angle_to o p < Angle.angle_to o q)%R <-> Vector2.atan2_ltb p q = true.
Proof.
  rewrite atan2_ltb_spec. unfold Angle.angle_to.
  pose proof PI_RGT_0 as Hpi.
  assert (K : (0 < 180 / PI)%R) by (apply Rdiv_lt_0_compat; lra).
  replace ((Vector2.atan2 q - Vector2.atan2 o) * 180 / PI)%R
    with ((Vector2.atan2 q - Vector2.atan2 o) * (180 / PI))%R by (field; lra).
  replace ((Vector2.atan2 p - Vector2.atan2 o) * 180 / PI)%R
    with ((Vector2.atan2 p - Vector2.atan2 o) * (180 / PI))%R by (field; lra).
  split; intros H.
  - destruct (Rlt_le_dec (Vector2.atan2 p) (Vector2.atan2 q)) as [L | L]; [assumption|].
    assert (0 <= (Vector2.atan2 p - Vector2.atan2 q) * (180 / PI))%R
      by (apply Rmult_le_pos; lra). lra.
  - assert (0 < (Vector2.atan2 q - Vector2.atan2 p) * (180 / PI))%R
      by (apply Rmult_lt_0_compat; lra). lra.
Qed.

Lemma angle_to_range p q : (-360 < Angle.angle_to p q < 360)%R.
Proof.
  unfold Angle.angle_to.
  pose proof PI_RGT_0 as Hpi.
  pose proof (atan2_range p). pose proof (atan2_range q).
  assert (K : (0 < 180 / PI)%R) by (apply Rdiv_lt_0_compat; lra).
  replace ((Vector2.atan2 q - Vector2.atan2 p) * 180 / PI)%R
    with ((Vector2.atan2 q - Vector2.atan2 p) * (180 / PI))%R by (field; lra).
  assert (E1 : (2 * PI * (180 / PI) = 360)%R) by (field; lra).
  assert (E2 : (- (2 * PI) * (180 / PI) = -360)%R) by (field; lra).
  split.
  - rewrite <- E2. apply Rmult_lt_compat_r; lra.
  - rewrite <- E1. apply Rmult_lt_compat_r; lra.
Qed.

Lemma angle_to_diff o p q :
  (Angle.angle_to o q - Angle.angle_to o p = Angle.angle_to p q)%R.
Proof. unfold Angle.angle_to. pose proof PI_RGT_0. field. lra. Qed.

Theorem Angle_ltb_degrees (a b : Angle.t) :
  Angle.self a = Angle.self b ->
  Angle.ltb a b = true <-> (Angle.degrees a < Angle.degrees b)%R.
Proof.
  destruct a as [o p], b as [o' q]. cbn. intros <-.
  unfold Angle.ltb, Angle.degrees, Angle.wraps. cbn.
  pose proof (angle_to_range o p) as Rp. pose proof (angle_to_range o q) as Rq.
  pose proof (angle_to_range p q) as Rpq. rewrite <- (angle_to_diff o) in Rpq.
  pose proof (angle_to_neg o p) as Np. pose proof (angle_to_neg o q) as Nq.
  pose proof (angle_to_lt o p q) as L.
  unfold Angle.mod_full, Angle.FULL_ROTATION.
  generalize dependent (Angle.angle_to o p). generalize dependent (Angle.angle_to o q).
  intros dq Rq Nq dp Rp Rpq Np L.
  destruct (Vector2.atan2_ltb p o), (Vector2.atan2_ltb q o);
    destruct (Rlt_dec dp 0) as [Hp | Hp]; destruct (Rlt_dec dq 0) as [Hq | Hq].
  all: try (exfalso; apply Hp; tauto); try (exfalso; apply Hq; tauto).
  all: try (exfalso; apply Np in Hp; discriminate); try (exfalso; apply Nq in Hq; discriminate).
  - rewrite <- L. split; intros; lra.
  - split; [discriminate | intros; lra].
  - split; [intros; lra | reflexivity].
  - rewrite <- L. split; intros; lra.
Qed.

(** ** The directional classifier *)

Ltac cmp_cases :=
  repeat match goal with
  | |- context [Z.ltb ?a ?b] => destruct (Z.ltb_spec a b)
  | |- context [Z.eqb ?a ?b] => destruct (Z.eqb_spec a b)
  end.

Lemma zone_lower p : Vector2.y p < 0 -> Vector2.zone p = 0.
Proof. unfold Vector2.zone. intros. cmp_cases; lia. Qed.

Lemma zone_upper p : 0 < Vector2.y p -> Vector2.zone p = 2.
Proof. unfold Vector2.zone. intros. cmp_cases; lia. Qed.

Lemma zone_zero p : Vector2.y p = 0 -> 0 <= Vector2.x p -> Vector2.zone p = 1.
Proof. unfold Vector2.zone. intros. cmp_cases; lia. Qed.

Lemma zone_half p : Vector2.y p = 0 -> Vector2.x p < 0 -> Vector2.zone p = 3.
Proof. unfold Vector2.zone. intros. cmp_cases; lia. Qed.

(** Fixes the zone of the vector [p] from the facts at hand. *)
Ltac zone_of p :=
  first
    [ rewrite (zone_lower p) by (cbn; lia)
    | rewrite (zone_upper p) by (cbn; lia)
    | rewrite (zone_zero p) by (cbn; lia)
    | rewrite (zone_half p) by (cbn; lia) ].

Ltac zones :=
  repeat match goal with
  | |- context [Vector2.zone ?p] => zone_of p
  end.

(** Decides the angle comparisons of a goal once the zone of every vector
    is known. *)
Ltac angles :=
  unfold Angle.ltb, Angle.wraps, Vector2.atan2_ltb;
  cbn [Angle.self Angle.other];
  zones; cbn [Z.ltb Z.eqb Z.compare Pos.compare Pos.compare_cont Pos.eqb orb andb];
  unfold Vector2.cross; cbn [Vector2.x Vector2.y];
  cmp_cases; cbn; try reflexivity; try lia; try nia.

(** Settles a closed statement about concrete integers by evaluation. *)
Ltac by_eval :=
  repeat split; vm_compute;
  first [ reflexivity | discriminate | (intro; discriminate) ].

(** The classifier reads its two arguments through their rectangles
    only. *)
Lemma _checkCollisionDirection_rect {A B} `{HasRect A} `{HasRect B} (m : A) (s : B) :
  _checkCollisionDirection m s = _checkCollisionDirection (rect_of m) (rect_of s).
Proof. reflexivity. Qed.

Lemma _checkCollisionDirection_apart {A B} `{HasRect A} `{HasRect B} (m : A) (s : B) :
  collide_rect m s = false -> _checkCollisionDirection m s = None.
Proof. intros E. unfold _checkCollisionDirection. now rewrite E. Qed.

(** Sets the stage for a proof about the classifier on a static rectangle
    of positive size: the half sizes [w2], [h2] replace the divisions and
    the centre [(u, v)] of the mover becomes a pair of variables. *)
Ltac classifier_setup :=
  unfold Angle.angle_to_mod, Rect.center, Rect.topleft, Rect.topright, Rect.bottomright, Rect.bottomleft,
    Rect.top, Rect.left, Rect.right, Rect.bottom, Rect.centerx, Rect.centery in *;
  cbn [Rect.x Rect.y Rect.w Rect.h fst snd] in *.

(** C1, as amended.  Take two rectangles of positive size, at most 100000
    wide and high, the static one at least two units wide and two units
    high, that overlap, with the centre of the mover strictly beyond one
    side of the static rectangle and within its span on the other axis.
    The classifier returns the edge of the mover that faces the static
    rectangle: bottom for a mover above, top for a mover below, right for
    a mover on the left, left for a mover on the right. *)
Theorem classify_clean_approach {A B} `{HasRect A} `{HasRect B}
    (a : Approach) (m : A) (s : B) :
  game_sized (rect_of m) -> game_sized (rect_of s) ->
  2 <= Rect.w (rect_of s) -> 2 <= Rect.h (rect_of s) ->
  collide_rect m s = true ->
  centre_beyond a (rect_of m) (rect_of s) ->
  _checkCollisionDirection m s = Some (contact_side a).
Proof.
  intros _ _ Hw Hh Hc Hb. unfold _checkCollisionDirection. rewrite Hc. clear Hc.
  remember (rect_of s) as rs eqn:Es. remember (rect_of m) as rm eqn:Em.
  clear Es Em. destruct rs as [sx sy sw sh].
  unfold centre_beyond, Rect.center in *.
  remember (Rect.centerx rm) as u eqn:Eu. remember (Rect.centery rm) as v eqn:Ev.
  clear Eu Ev rm.
  classifier_setup. rewrite !Z.shiftr_div_pow2 by lia. change (2 ^ 1) with 2.
  assert (Hw2 : 1 <= sw / 2 /\ 1 <= sw - sw / 2) by (split; Z.div_mod_to_equations; lia).
  assert (Hh2 : 1 <= sh / 2 /\ 1 <= sh - sh / 2) by (split; Z.div_mod_to_equations; lia).
  remember (sw / 2) as w2 eqn:Ew2. remember (sh / 2) as h2 eqn:Eh2. clear Ew2 Eh2.
  destruct a; cbn [contact_side].
  - angles.
  - destruct (Z.lt_trichotomy (sy + h2 - v) 0) as [Hd | [Hd | Hd]]; angles.
  - angles.
  - destruct (Z.lt_trichotomy (sy + h2 - v) 0) as [Hd | [Hd | Hd]]; angles.
Qed.

(** The theorem at work on a player left of a wall. *)
Lemma classify_clean_approach_witness :
  _checkCollisionDirection (Rect.mk (-8) 0 10 10) (Rect.mk 0 0 10 10) = Some Right.
Proof.
  apply (classify_clean_approach FromLeft (Rect.mk (-8) 0 10 10) (Rect.mk 0 0 10 10)).
  - by_eval.
  - by_eval.
  - by_eval.
  - by_eval.
  - reflexivity.
  - by_eval.
Defined.


(** C1, as stated, fails: a mover that comes from the left, sticking out of
    the static rectangle through its left side only and with its centre
    left of it, is classified right, not left. *)
Lemma classify_from_left_is_right :
  let m := Rect.mk (-8) 0 10 10 in
  let s := Rect.mk 0 0 10 10 in
  collide_rect m s = true
  /\ centre_beyond FromLeft m s
  /\ protrudes_only FromLeft m s
  /\ _checkCollisionDirection m s = Some Right
  /\ _checkCollisionDirection m s <> Some (approach_side FromLeft).
Proof.
  by_eval.
Qed.

(** Sticking out through one side does not decide the class: the centres
    alone do.  Here the mover sticks out through the top of a tall
    rectangle only, and is classified right. *)
Lemma classify_reads_centres_only :
  let m := Rect.mk 0 (-1) 4 50 in
  let s := Rect.mk 0 0 10 100 in
  collide_rect m s = true
  /\ protrudes_only FromAbove m s
  /\ _checkCollisionDirection m s = Some Right.
Proof. by_eval. Qed.

(** On a static rectangle one unit wide the centre of a mover straight
    above it points along a spoke, and no side is returned. *)
Lemma classify_above_thin_rect :
  let m := Rect.mk 0 (-5) 1 6 in
  let s := Rect.mk 0 0 1 10 in
  collide_rect m s = true
  /\ centre_beyond FromAbove m s
  /\ _checkCollisionDirection m s = None.
Proof. by_eval. Qed.

(** Two angles from the same vector that are equal in degrees compare
    alike with any third one. *)
Lemma ltb_congr_l (a a' b : Angle.t) :
  Angle.self a = Angle.self b -> Angle.self a' = Angle.self b ->
  Angle.degrees a = Angle.degrees a' ->
  Angle.ltb a b = Angle.ltb a' b.
Proof.
  intros E E' D.
  pose proof (Angle_ltb_degrees a b E) as L. pose proof (Angle_ltb_degrees a' b E') as L'.
  rewrite D in L.
  destruct (Angle.ltb a b), (Angle.ltb a' b); try reflexivity.
  - symmetry. apply L', L. reflexivity.
  - apply L, L'. reflexivity.
Qed.

Lemma ltb_congr_r (a a' b : Angle.t) :
  Angle.self a = Angle.self b -> Angle.self a' = Angle.self b ->
  Angle.degrees a = Angle.degrees a' ->
  Angle.ltb b a = Angle.ltb b a'.
Proof.
  intros E E' D.
  pose proof (Angle_ltb_degrees b a (eq_sym E)) as L.
  pose proof (Angle_ltb_degrees b a' (eq_sym E')) as L'.
  rewrite D in L.
  destruct (Angle.ltb b a), (Angle.ltb b a'); try reflexivity.
  - symmetry. apply L', L. reflexivity.
  - apply L, L'. reflexivity.
Qed.

(** On a sector boundary every one of the four strict sector tests fails:
    an overlapping mover whose centre-to-centre angle equals a spoke angle
    gets no side. *)
Lemma classify_on_boundary {A B} `{HasRect A} `{HasRect B} (m : A) (s : B) :
  Rect.positive (rect_of s) ->
  collide_rect m s = true ->
  on_boundary (rect_of m) (rect_of s) ->
  _checkCollisionDirection m s = None.
Proof.
  intros [Hw Hh] Hc (k & Hk & D). unfold _checkCollisionDirection. rewrite Hc. clear Hc.
  unfold spokes, displacement in *.
  remember (rect_of s) as rs eqn:Es. remember (rect_of m) as rm eqn:Em.
  clear Es Em. destruct rs as [sx sy sw sh].
  unfold Rect.center in *.
  remember (Rect.centerx rm) as u eqn:Eu. remember (Rect.centery rm) as v eqn:Ev.
  clear Eu Ev rm.
  classifier_setup. rewrite !Z.shiftr_div_pow2 in * by lia. change (2 ^ 1) with 2 in *.
  assert (Hw2 : 0 <= sw / 2 /\ 1 <= sw - sw / 2) by (split; Z.div_mod_to_equations; lia).
  assert (Hh2 : 0 <= sh / 2 /\ 1 <= sh - sh / 2) by (split; Z.div_mod_to_equations; lia).
  remember (sw / 2) as w2 eqn:Ew2. remember (sh / 2) as h2 eqn:Eh2. clear Ew2 Eh2.
  set (o := Vector2.mk (sx + w2 - sx) (sy + h2 - sy)) in *.
  set (d := Vector2.mk (sx + w2 - u) (sy + h2 - v)) in *.
  rewrite !(ltb_congr_l (Angle.mk o d) (Angle.mk o k)) by (reflexivity || exact D).
  rewrite !(ltb_congr_r (Angle.mk o d) (Angle.mk o k)) by (reflexivity || exact D).
  clear D d. subst o.
  assert (Z0 : h2 = 0 \/ 0 < h2) by lia. assert (Z1 : w2 = 0 \/ 0 < w2) by lia.
  cbn in Hk.
  destruct Hk as [<- | [<- | [<- | [<- | []]]]]; destruct Z0, Z1; subst; angles.
Qed.

(** C2 at its failing input.  A mover that overlaps the top-left corner of
    a static rectangle with its centre on the diagonal has the
    centre-to-centre angle equal to the first spoke angle; the four sector
    tests all fail and the classifier returns no side. *)
Theorem classify_corner_tie :
  let m := Rect.mk (-1) (-1) 2 2 in
  let s := Rect.mk 0 0 2 2 in
  collide_rect m s = true
  /\ on_boundary m s
  /\ _checkCollisionDirection m s = None.
Proof.
  split; [reflexivity|]. split; [|reflexivity].
  exists (Vector2.mk 1 1). split; [now left | reflexivity].
Qed.

(** C10, as amended: when the centres coincide the vector between them is
    the zero vector, whose [atan2] is 0; measured from the first spoke that
    is the last sector.  For an overlapping pair with equal centres and a
    static rectangle at least two units high the classifier returns
    right. *)
Lemma classify_same_centre {A B} `{HasRect A} `{HasRect B} (m : A) (s : B) :
  1 <= Rect.w (rect_of s) -> 2 <= Rect.h (rect_of s) ->
  collide_rect m s = true ->
  Rect.center (rect_of m) = Rect.center (rect_of s) ->
  _checkCollisionDirection m s = Some Right.
Proof.
  intros Hw Hh Hc Ec. unfold _checkCollisionDirection. rewrite Hc, Ec. clear Hc Ec.
  remember (rect_of s) as rs eqn:Es. clear Es. destruct rs as [sx sy sw sh].
  classifier_setup. rewrite !Z.shiftr_div_pow2 by lia. change (2 ^ 1) with 2.
  assert (Hw2 : 0 <= sw / 2 /\ 1 <= sw - sw / 2) by (split; Z.div_mod_to_equations; lia).
  assert (Hh2 : 1 <= sh / 2 /\ 1 <= sh - sh / 2) by (split; Z.div_mod_to_equations; lia).
  remember (sw / 2) as w2 eqn:Ew2. remember (sh / 2) as h2 eqn:Eh2. clear Ew2 Eh2.
  angles.
Qed.

(** ** The Basic Resolver *)

Lemma _resolveBasicCollision_single {B} `{HasRect B} (m : Player.t) (wall : B) :
  _resolveBasicCollision m [wall]
  = if collide_rect m wall then _resolveBasicCollision_wall m wall else m.
Proof.
  unfold _resolveBasicCollision, spritecollide, collide_rect. cbn.
  now destruct (Rect.colliderect _ _).
Qed.

Lemma _resolveBasicCollision_wall_apart {B} `{HasRect B} (m : Player.t) (wall : B) :
  collide_rect m wall = false -> _resolveBasicCollision_wall m wall = m.
Proof.
  intros E. unfold _resolveBasicCollision_wall.
  now rewrite (_checkCollisionDirection_apart m wall E).
Qed.

Lemma spritecollide_none {A B} `{HasRect A} `{HasRect B} (m : A) (group : list B) :
  (forall wall, In wall group -> collide_rect m wall = false) ->
  spritecollide m group = [].
Proof.
  unfold spritecollide, collide_rect. induction group as [| w g IH]; intros Hn.
  - reflexivity.
  - cbn. rewrite (Hn w) by now left. apply IH. intros w' Hw'. apply Hn. now right.
Qed.

Ltac rect_cases :=
  unfold Rect.colliderect, Rect.contains, Rect.positive, Rect.set_bottom, Rect.set_left,
    Rect.set_top, Rect.set_right, Rect.top, Rect.left, Rect.right, Rect.bottom in *;
  cbn [Rect.x Rect.y Rect.w Rect.h] in *.

(** On rectangles of positive size [colliderect] is the strict overlap of
    the spans on both axes. *)
Lemma colliderect_positive (a b : Rect.t) :
  Rect.positive a -> Rect.positive b ->
  Rect.colliderect a b = true <->
  Rect.left a < Rect.right b /\ Rect.left b < Rect.right a
  /\ Rect.top a < Rect.bottom b /\ Rect.top b < Rect.bottom a.
Proof.
  destruct a as [ax ay aw ah], b as [bx by' bw bh]. rect_cases. intros [? ?] [? ?].
  repeat match goal with
  | |- context [Z.eqb ?a ?b] => destruct (Z.eqb_spec a b); [lia|]; cbn
  end.
  rewrite !andb_true_iff, !Z.ltb_lt. lia.
Qed.

(** An edge snapped onto the facing edge of [b] leaves [a] beside [b]. *)
Lemma colliderect_snapped (a b : Rect.t) :
  Rect.positive a -> Rect.positive b ->
  Rect.colliderect (Rect.set_bottom (Rect.top b) a) b = false
  /\ Rect.colliderect (Rect.set_left (Rect.right b) a) b = false
  /\ Rect.colliderect (Rect.set_top (Rect.bottom b) a) b = false
  /\ Rect.colliderect (Rect.set_right (Rect.left b) a) b = false.
Proof.
  destruct a as [ax ay aw ah], b as [bx by' bw bh]. rect_cases. intros [? ?] [? ?].
  repeat split;
    repeat match goal with
    | |- context [Z.eqb ?a ?b] => destruct (Z.eqb_spec a b); cbn; try reflexivity
    end;
    rewrite !andb_false_iff, !Z.ltb_ge; lia.
Qed.

(** A correction moves the mover out of the obstacle it was made for. *)
Lemma _resolveBasicCollision_wall_separates {B} `{HasRect B} (m : Player.t) (wall : B) :
  Rect.positive (rect_of m) -> Rect.positive (rect_of wall) ->
  _checkCollisionDirection m wall <> None ->
  collide_rect (_resolveBasicCollision_wall m wall) wall = false.
Proof.
  intros Hm Hw Hd. unfold _resolveBasicCollision_wall.
  destruct (colliderect_snapped _ _ Hm Hw) as (Eb & El & Et & Er).
  destruct (_checkCollisionDirection m wall) as [[ | | | ] |]; [| | | | congruence];
    unfold collide_rect; assumption.
Qed.

(** C3, as amended.  Against a single obstacle, mover and obstacle of
    positive width and height, a second run of the Basic Resolver leaves
    the mover as the first run made it; and against an obstacle set none of
    whose members overlaps the mover the resolver changes nothing. *)
Theorem resolveBasicCollision_idempotent {B} `{HasRect B}
    (m : Player.t) (wall : B) (group : list B) :
  Rect.positive (rect_of m) -> Rect.positive (rect_of wall) ->
  (forall w, In w group -> collide_rect m w = false) ->
  _resolveBasicCollision (_resolveBasicCollision m [wall]) [wall]
  = _resolveBasicCollision m [wall]
  /\ _resolveBasicCollision m group = m.
Proof.
  intros Hm Hw Hg. split.
  - rewrite (_resolveBasicCollision_single m wall).
    destruct (collide_rect m wall) eqn:Ec.
    + destruct (_checkCollisionDirection m wall) as [d |] eqn:Ed.
      * rewrite _resolveBasicCollision_single.
        rewrite _resolveBasicCollision_wall_separates; auto. congruence.
      * assert (E : _resolveBasicCollision_wall m wall = m)
          by (unfold _resolveBasicCollision_wall; now rewrite Ed).
        rewrite E, _resolveBasicCollision_single, Ec. exact E.
    + rewrite _resolveBasicCollision_single, Ec. reflexivity.
  - unfold _resolveBasicCollision. now rewrite spritecollide_none.
Qed.

Lemma resolveBasicCollision_idempotent_witness :
  let m := Player.mk 1 (Rect.mk 0 0 10 10) (Physics.mk (Vector2.mk 0 5) [] []) false ∅ in
  let floor := Sprite.mk (Rect.mk (-10) 8 30 10) in
  let far := Sprite.mk (Rect.mk 500 500 30 10) in
  _resolveBasicCollision (_resolveBasicCollision m [floor]) [floor]
  = _resolveBasicCollision m [floor]
  /\ _resolveBasicCollision m [far] = m.
Proof.
  apply (resolveBasicCollision_idempotent
           (Player.mk 1 (Rect.mk 0 0 10 10) (Physics.mk (Vector2.mk 0 5) [] []) false ∅)
           (Sprite.mk (Rect.mk (-10) 8 30 10))
           [Sprite.mk (Rect.mk 500 500 30 10)]).
  - by_eval.
  - by_eval.
  - intros w [<- | []]. reflexivity.
Defined.

(** C3, as stated, fails on obstacle sets.  A player sinks two units into
    a floor, under a ceiling it does not touch yet.  The first run lifts
    the player onto the floor and thereby into the ceiling, which was not
    among the hits; the second run pushes it back down below the ceiling,
    into the floor. *)
Lemma resolveBasicCollision_not_idempotent :
  let m := Player.mk 1 (Rect.mk 0 0 10 10) (Physics.mk (Vector2.mk 0 5) [] []) false ∅ in
  let floor := Sprite.mk (Rect.mk (-10) 8 30 10) in
  let ceiling := Sprite.mk (Rect.mk (-10) (-11) 30 10) in
  let once := _resolveBasicCollision m [floor; ceiling] in
  let twice := _resolveBasicCollision once [floor; ceiling] in
  Player.rect once = Rect.mk 0 (-2) 10 10
  /\ Player.rect twice = Rect.mk 0 (-1) 10 10
  /\ twice <> once.
Proof.
  split; [reflexivity|]. split; [reflexivity|].
  intros E. apply (f_equal Player.rect) in E. vm_compute in E. discriminate E.
Qed.

(** C10, as amended.  Take a player and an obstacle, both of positive
    size and at most 100000 wide and high, the obstacle at least two units
    high, that overlap with their centres on the same point.  The player is
    classified right: the Basic Resolver puts the right edge of the player
    on the left edge of the obstacle and zeroes the horizontal velocity;
    the vertical velocity, the ground flag and the size of the player
    stay. *)
Theorem same_centre_resolves_right {B} `{HasRect B} (m : Player.t) (s : B) :
  game_sized (rect_of m) -> game_sized (rect_of s) ->
  2 <= Rect.h (rect_of s) ->
  collide_rect m s = true ->
  Rect.center (rect_of m) = Rect.center (rect_of s) ->
  let m' := _resolveBasicCollision m [s] in
  _checkCollisionDirection m s = Some Right
  /\ Rect.right (Player.rect m') = Rect.left (rect_of s)
  /\ Rect.top (Player.rect m') = Rect.top (Player.rect m)
  /\ Rect.size (Player.rect m') = Rect.size (Player.rect m)
  /\ Vector2.x (Player.velocity m') = 0
  /\ Vector2.y (Player.velocity m') = Vector2.y (Player.velocity m)
  /\ Player.isOnGround m' = Player.isOnGround m.
Proof.
  intros _ [[Hw _] _] Hh Hc Ec m'. subst m'.
  assert (Hw1 : 1 <= Rect.w (rect_of s)) by lia.
  pose proof (classify_same_centre m s Hw1 Hh Hc Ec) as Ed.
  rewrite _resolveBasicCollision_single, Hc. unfold _resolveBasicCollision_wall.
  rewrite Ed. cbn. unfold Rect.right, Rect.set_right. cbn.
  repeat split; lia.
Qed.

Lemma same_centre_resolves_right_witness :
  let m := Player.mk 1 (Rect.mk 0 0 10 10) (Physics.mk (Vector2.mk 3 4) [] []) false ∅ in
  let s := Sprite.mk (Rect.mk 0 0 10 10) in
  let m' := _resolveBasicCollision m [s] in
  _checkCollisionDirection m s = Some Right
  /\ Rect.right (Player.rect m') = Rect.left (rect_of s)
  /\ Rect.top (Player.rect m') = Rect.top (Player.rect m)
  /\ Rect.size (Player.rect m') = Rect.size (Player.rect m)
  /\ Vector2.x (Player.velocity m') = 0
  /\ Vector2.y (Player.velocity m') = Vector2.y (Player.velocity m)
  /\ Player.isOnGround m' = Player.isOnGround m.
Proof.
  apply (same_centre_resolves_right
           (Player.mk 1 (Rect.mk 0 0 10 10) (Physics.mk (Vector2.mk 3 4) [] []) false ∅)
           (Sprite.mk (Rect.mk 0 0 10 10))).
  - by_eval.
  - by_eval.
  - by_eval.
  - reflexivity.
  - reflexivity.
Defined.

(** C10, as stated, fails: a player that sits exactly on an obstacle, centre
    on centre, is classified right, and the Basic Resolver moves it and
    stops it horizontally. *)
Lemma same_centre_is_not_skipped :
  let m := Player.mk 1 (Rect.mk 0 0 10 10) (Physics.mk (Vector2.mk 3 4) [] []) false ∅ in
  let s := Sprite.mk (Rect.mk 0 0 10 10) in
  let m' := _resolveBasicCollision m [s] in
  collide_rect m s = true
  /\ Rect.center (rect_of m) = Rect.center (rect_of s)
  /\ _checkCollisionDirection m s <> None
  /\ Player.rect m' = Rect.mk (-10) 0 10 10
  /\ Player.rect m' <> Player.rect m
  /\ Player.velocity m' <> Player.velocity m.
Proof. by_eval. Qed.

(** ** Directional platforms *)

Lemma resolveDPlatformCollisions_platform_step (player : Player.t) (platform : Sprite.t) :
  tolerance_step player platform (resolveDPlatformCollisions_platform player platform).
Proof.
  unfold tolerance_step, resolveDPlatformCollisions_platform.
  destruct (_checkCollisionDirection player platform) as [[ | | | ] |];
    (split; [| split]); intros; try congruence; try reflexivity.
  - destruct (Z.ltb_spec (Z.abs (Rect.bottom (Player.rect player) - Rect.top (rect_of platform))) 30);
      [lia | reflexivity].
  - destruct (Z.ltb_spec (Z.abs (Rect.bottom (Player.rect player) - Rect.top (rect_of platform))) 30);
      [| lia].
    unfold Player.velocity. cbn [Player.physics Player.set_isOnGround Player.set_rect].
    match goal with |- context [?a >? ?b] => destruct (Z.gtb_spec a b) end;
      cbn; unfold Rect.bottom, Rect.left, Rect.size, Rect.set_bottom; cbn;
      repeat split; try lia; try reflexivity.
Qed.

Lemma resolveDPlatformCollisions_player_passes (dPlatforms : list Sprite.t) (player : Player.t) :
  passes_over player (spritecollide player dPlatforms)
              (resolveDPlatformCollisions_player dPlatforms player).
Proof.
  unfold resolveDPlatformCollisions_player.
  generalize (spritecollide player dPlatforms). intros hits. revert player.
  induction hits as [| platform hits IH]; intros player; cbn [fold_left].
  - constructor.
  - econstructor; [apply resolveDPlatformCollisions_platform_step | apply IH].
Qed.

(** C4.  [resolveDPlatformCollisions] takes every player of the scene
    through the directional platforms the player overlaps on entry, one
    after the other.  For each of them: classified bottom with a gap of 30
    or more between the bottom of the player and the top of the platform,
    the player is not snapped; classified bottom with a smaller gap, the
    bottom of the player is put on the top of the platform, the player is
    on the ground, a downward velocity becomes 0 and any other vertical
    velocity is kept; classified otherwise, nothing happens to the player.
    Nothing else of the engine changes. *)
Theorem resolveDPlatformCollisions_tolerance (self : CollisionEngine) :
  let self' := resolveDPlatformCollisions self in
  Forall2
    (fun player player' =>
       passes_over player (spritecollide player (Scene.dPlatforms (scene self))) player')
    (Scene.players (scene self)) (Scene.players (scene self'))
  /\ Scene.set_players (Scene.players (scene self)) (scene self') = scene self
  /\ audio self' = audio self
  /\ sent self' = sent self.
Proof.
  intros self'. subst self'. unfold resolveDPlatformCollisions.
  split; [| split; [| split]]; try reflexivity.
  - cbn [scene set_players set_scene Scene.players Scene.set_players].
    induction (Scene.players (scene self)) as [| p ps IH]; cbn [map]; constructor.
    + apply resolveDPlatformCollisions_player_passes.
    + exact IH.
  - now destruct self as [[] ? ?].
Qed.

(** A falling player two units into one platform lands on it; the same
    player over a platform 40 units below its feet is left alone. *)
Lemma resolveDPlatformCollisions_tolerance_witness :
  let player := Player.mk 1 (Rect.mk 0 (-8) 10 10) (Physics.mk (Vector2.mk 0 5) [] []) false ∅ in
  let platform := Sprite.mk (Rect.mk (-10) 0 30 10) in
  let self := mkEngine (Scene.mk [player] [] [] [platform] [] [] [] [] [] (Rect.mk 0 0 400 300))
                       (AudioComponent.mk "") [] in
  exists player', Scene.players (scene (resolveDPlatformCollisions self)) = [player']
    /\ Rect.bottom (Player.rect player') = 0
    /\ Player.isOnGround player' = true
    /\ Vector2.y (Player.velocity player') = 0.
Proof.
  intros player platform self.
  destruct (resolveDPlatformCollisions_tolerance self) as (Hf & _).
  exists (resolveDPlatformCollisions_player [platform] player).
  split; [reflexivity|].
  change (Scene.players (scene (resolveDPlatformCollisions self)))
    with [resolveDPlatformCollisions_player [platform] player] in Hf.
  inversion Hf as [| p p' ps ps' Hp _]; subst.
  change (spritecollide player (Scene.dPlatforms (scene self))) with [platform] in Hp.
  inversion Hp as [| q0 next q1 pl hits Hstep Hrest]; subst.
  inversion Hrest; subst.
  destruct Hstep as (_ & Hsnap & _).
  destruct Hsnap as (Hb & _ & _ & Hg & Hv & _); [reflexivity | by_eval |].
  split; [exact Hb|]. split; [exact Hg|]. apply Hv. by_eval.
Defined.

(** ** Switches *)

Lemma moving_test (player : Player.t) :
  negb (Vector2.x (Player.velocity player) =? 0)
  || negb (Vector2.y (Player.velocity player) =? 0) = true
  <-> moving player.
Proof.
  unfold moving. rewrite orb_true_iff, !negb_true_iff, !Z.eqb_neq. reflexivity.
Qed.

(** One switch against the players: its rectangle stays, and it ends up
    off exactly when it was off already or a moving player touches it. *)
Lemma resolveSwitchCollisions_switch_spec (players : list Player.t) (s : Switch.t) :
  let s' := resolveSwitchCollisions_switch players s in
  Switch.rect s' = Switch.rect s
  /\ (Switch.isOn s' = false <->
      Switch.isOn s = false \/ exists player, In player players /\ touches_moving s player).
Proof.
  unfold resolveSwitchCollisions_switch.
  revert s. induction players as [| p ps IH]; intros s; cbn [fold_left].
  - split; [reflexivity|]. split; [tauto|]. intros [E | (p & [] & _)]. exact E.
  - set (s1 := if collide_rect p s then _ else s).
    assert (H1 : Switch.rect s1 = Switch.rect s
                 /\ (Switch.isOn s1 = false <-> Switch.isOn s = false \/ touches_moving s p)).
    { subst s1. unfold touches_moving. rewrite <- moving_test.
      destruct (collide_rect p s); [| split; [reflexivity|]; intuition congruence].
      destruct (negb _ || negb _); cbn; split; try reflexivity; intuition congruence. }
    destruct H1 as [R1 O1]. destruct (IH s1) as [R2 O2].
    split; [congruence|].
    rewrite O2, O1. unfold touches_moving, collide_rect, rect_of, Switch_HasRect.
    rewrite R1. split.
    + intros [[E | T] | (q & Hq & T)]; [now left | right; exists p | right; exists q];
        (split; [cbn; tauto | exact T]).
    + intros [E | (q & [<- | Hq] & T)]; [tauto | tauto |]. right. now exists q.
Qed.

(** C5.  A switch that is on is turned off by [resolveSwitchCollisions]
    exactly when some player overlaps it with a velocity that is nonzero on
    some axis; the resolver leaves the rectangle of the switch and every
    player as they are. *)
Theorem resolveSwitchCollisions_spec (self : CollisionEngine) (i : nat) (s : Switch.t) :
  nth_error (Scene.switches (scene self)) i = Some s ->
  Switch.isOn s = true ->
  let self' := resolveSwitchCollisions self in
  Scene.players (scene self') = Scene.players (scene self)
  /\ exists s', nth_error (Scene.switches (scene self')) i = Some s'
     /\ Switch.rect s' = Switch.rect s
     /\ (Switch.isOn s' = false <->
         exists player, In player (Scene.players (scene self))
           /\ collide_rect player s = true /\ moving player).
Proof.
  intros Hi Hon self'. subst self'. unfold resolveSwitchCollisions. cbn.
  split; [reflexivity|].
  rewrite nth_error_map, Hi. cbn. rewrite Hon.
  eexists. split; [reflexivity|].
  destruct (resolveSwitchCollisions_switch_spec (Scene.players (scene self)) s) as [R O].
  split; [exact R|]. rewrite O. unfold touches_moving. split.
  - intros [E | T]; [congruence | exact T].
  - intros T. now right.
Qed.

Lemma resolveSwitchCollisions_spec_witness :
  let mover := Player.mk 1 (Rect.mk 0 0 10 10) (Physics.mk (Vector2.mk 0 5) [] []) false ∅ in
  let s := Switch.mk (Rect.mk 5 5 10 10) true in
  let self := mkEngine (Scene.mk [mover] [] [] [] [] [s] [] [] [] (Rect.mk 0 0 100 100))
                       (AudioComponent.mk "") [] in
  exists s', nth_error (Scene.switches (scene (resolveSwitchCollisions self))) 0 = Some s'
    /\ Switch.isOn s' = false.
Proof.
  intros mover s self.
  destruct (resolveSwitchCollisions_spec self 0 s eq_refl eq_refl) as (_ & s' & Hs' & _ & Hoff).
  exists s'. split; [exact Hs'|]. apply Hoff.
  exists mover. split; [now left|]. split; [reflexivity|]. right. by_eval.
Defined.

(** A player at rest does not turn a switch off. *)
Lemma resolveSwitchCollisions_at_rest :
  let idle := Player.mk 1 (Rect.mk 0 0 10 10) (Physics.mk (Vector2.mk 0 0) [] []) false ∅ in
  let s := Switch.mk (Rect.mk 5 5 10 10) true in
  let self := mkEngine (Scene.mk [idle] [] [] [] [] [s] [] [] [] (Rect.mk 0 0 100 100))
                       (AudioComponent.mk "") [] in
  collide_rect idle s = true
  /\ Scene.switches (scene (resolveSwitchCollisions self)) = [s].
Proof. split; reflexivity. Qed.

(** ** The world boundary *)

Lemma contains_inside (a b : Rect.t) :
  Rect.positive b -> Rect.contains a b = true <-> inside a b.
Proof.
  destruct a as [ax ay aw ah], b as [bx by' bw bh]. unfold inside. rect_cases.
  intros [? ?]. rewrite !andb_true_iff, !Z.leb_le, !Z.ltb_lt. lia.
Qed.

(** The death requests of a boundary pass, player by player. *)
Lemma resolveBoundaryCollision_fold (b : Rect.t) (players : list Player.t)
    (self : CollisionEngine) :
  let self' :=
    fold_left
      (fun self player =>
         if negb (Rect.contains b (rect_of player))
         then messageScene (Death (Player.num player)) self
         else self)
      players self in
  scene self' = scene self
  /\ audio self' = audio self
  /\ sent self' = sent self
       ++ map (fun p => Death (Player.num p))
              (List.filter (fun p => negb (Rect.contains b (rect_of p))) players).
Proof.
  revert self. induction players as [| p ps IH]; intros self; cbn [fold_left List.filter map].
  - now rewrite app_nil_r.
  - destruct (negb (Rect.contains b (rect_of p))).
    + destruct (IH (messageScene (Death (Player.num p)) self)) as (E1 & E2 & E3).
      cbn in *. rewrite E1, E2, E3, <- app_assoc. easy.
    + apply IH.
Qed.

Lemma c_int_id (z : Z) : fits_c_int z -> c_int z = z.
Proof. unfold fits_c_int, c_int. intros Hz. rewrite Z.mod_small by lia. lia. Qed.

(** C6, as amended.  For a scene whose width and height plus 2000 fit a C
    [int], [resolveBoundaryCollision] builds the rectangle of the size of
    the scene grown by 1000 units on each side and placed with its
    top-left corner at (-1000, -1000); that is the rectangle of the scene
    grown by 1000 units on each side when the scene has its top-left
    corner at the origin.  The pass sends one death request, carrying the
    number of the player, for each player whose rectangle that boundary
    does not contain, in the order of the players, and nothing else
    changes. *)
Theorem resolveBoundaryCollision_spec (self : CollisionEngine) :
  fits_c_int (Rect.w (Scene.rect (scene self)) + 2000) ->
  fits_c_int (Rect.h (Scene.rect (scene self)) + 2000) ->
  let b := Rect.mk (-1000) (-1000) (Rect.w (Scene.rect (scene self)) + 2000)
                   (Rect.h (Scene.rect (scene self)) + 2000) in
  let self' := resolveBoundaryCollision self in
  boundary self = b
  /\ (Rect.topleft (Scene.rect (scene self)) = (0, 0) ->
      boundary self = expanded 1000 (Scene.rect (scene self)))
  /\ scene self' = scene self
  /\ audio self' = audio self
  /\ exists new, sent self' = sent self ++ new
     /\ new = map (fun p => Death (Player.num p))
                  (List.filter (fun p => negb (Rect.contains b (Player.rect p)))
                               (Scene.players (scene self)))
     /\ forall n, In (Death n) new <->
          exists player, In player (Scene.players (scene self))
            /\ Player.num player = n
            /\ Rect.contains b (Player.rect player) = false.
Proof.
  intros Fw Fh b self'. subst self'.
  assert (Eb : boundary self = b).
  { unfold boundary, pg_Rect, Rect.size. subst b.
    rewrite (c_int_id _ Fw), (c_int_id _ Fh). reflexivity. }
  split; [exact Eb|]. split.
  - intros E. rewrite Eb. subst b. unfold expanded.
    destruct (Scene.rect (scene self)) as [x y w h]. cbn in *.
    injection E as -> ->. f_equal; lia.
  - unfold resolveBoundaryCollision. rewrite Eb.
    destruct (resolveBoundaryCollision_fold b (Scene.players (scene self)) self)
      as (E1 & E2 & E3).
    split; [exact E1|]. split; [exact E2|].
    eexists. split; [exact E3|]. split; [reflexivity|].
    intros n. rewrite in_map_iff. split.
    + intros (p & Ep & Hp). apply filter_In in Hp. destruct Hp as [Hp Hc].
      exists p. injection Ep as Ep. rewrite negb_true_iff in Hc. auto.
    + intros (p & Hp & En & Hc). exists p. split; [now rewrite En|].
      apply filter_In. split; [exact Hp|]. now rewrite negb_true_iff.
Qed.

Lemma resolveBoundaryCollision_spec_witness :
  let inner := Player.mk 1 (Rect.mk 10 10 10 10) (Physics.mk (Vector2.mk 0 0) [] []) false ∅ in
  let fallen := Player.mk 2 (Rect.mk 10 1500 10 10) (Physics.mk (Vector2.mk 0 9) [] []) false ∅ in
  let self := mkEngine (Scene.mk [inner; fallen] [] [] [] [] [] [] [] [] (Rect.mk 0 0 400 300))
                       (AudioComponent.mk "") [] in
  boundary self = expanded 1000 (Scene.rect (scene self))
  /\ exists new, sent (resolveBoundaryCollision self) = [] ++ new /\ new = [Death 2].
Proof.
  intros inner fallen self.
  destruct (resolveBoundaryCollision_spec self) as (_ & Hb & _ & _ & new & Hs & Hn & _);
    [by_eval | by_eval |].
  split; [apply Hb; reflexivity|].
  exists new. split; [exact Hs | exact Hn].
Defined.

(** C6, as stated, fails for a scene that does not start at the origin:
    the boundary is not the rectangle of the scene grown by 1000 units, and
    a player well inside the scene is reported dead. *)
Lemma resolveBoundaryCollision_ignores_scene_position :
  let player := Player.mk 1 (Rect.mk 5010 10 10 10) (Physics.mk (Vector2.mk 0 0) [] []) false ∅ in
  let self := mkEngine (Scene.mk [player] [] [] [] [] [] [] [] [] (Rect.mk 5000 0 100 100))
                       (AudioComponent.mk "") [] in
  boundary self <> expanded 1000 (Scene.rect (scene self))
  /\ Rect.contains (Scene.rect (scene self)) (Player.rect player) = true
  /\ Rect.contains (expanded 1000 (Scene.rect (scene self))) (Player.rect player) = true
  /\ sent (resolveBoundaryCollision self) = [Death 1].
Proof. by_eval. Qed.

(** Where the width of the scene plus 2000 no longer fits a C [int] the
    boundary wraps to a negative width and contains nobody. *)
Lemma resolveBoundaryCollision_wraps :
  let player := Player.mk 1 (Rect.mk 10 10 10 10) (Physics.mk (Vector2.mk 0 0) [] []) false ∅ in
  let self := mkEngine (Scene.mk [player] [] [] [] [] [] [] [] [] (Rect.mk 0 0 2147483647 300))
                       (AudioComponent.mk "") [] in
  boundary self = Rect.mk (-1000) (-1000) (-2147481649) 2300
  /\ sent (resolveBoundaryCollision self) = [Death 1].
Proof. by_eval. Qed.

(** ** The cooperative explosion *)

(** C7, as amended.  With exactly two players whose rectangles overlap and
    a positive explosion speed, [resolvePlayerCollisions] requests for both
    players a vertical velocity of minus the speed (upward), and horizontal
    velocities of the same magnitude and opposite signs; the player at the
    larger x-coordinate gets the positive one.  Nothing else of the players
    changes. *)
Theorem resolvePlayerCollisions_explosion (self : CollisionEngine)
    (p1 p2 : Player.t) (explosionSpeed : Z) :
  Scene.players (scene self) = [p1; p2] ->
  collide_rect p1 p2 = true ->
  0 < explosionSpeed ->
  exists ph1 ph2 ix1 ix2,
    resolvePlayerCollisions self explosionSpeed
    = Ok (set_players [Player.set_physics ph1 p1; Player.set_physics ph2 p2] self)
    /\ Physics.velocities ph1
       = Physics.velocities (Player.physics p1)
           ++ [("collision", AxisY, - explosionSpeed); ("collision", AxisX, ix1)]
    /\ Physics.velocities ph2
       = Physics.velocities (Player.physics p2)
           ++ [("collision", AxisY, - explosionSpeed); ("collision", AxisX, ix2)]
    /\ Physics.velocity ph1 = Physics.velocity (Player.physics p1)
    /\ Physics.velocity ph2 = Physics.velocity (Player.physics p2)
    /\ Physics.displacements ph1 = Physics.displacements (Player.physics p1)
    /\ Physics.displacements ph2 = Physics.displacements (Player.physics p2)
    /\ - explosionSpeed < 0
    /\ Z.abs ix1 = explosionSpeed /\ Z.abs ix2 = explosionSpeed /\ ix1 = - ix2
    /\ (Rect.x (Player.rect p1) < Rect.x (Player.rect p2) -> ix1 < 0 < ix2)
    /\ (Rect.x (Player.rect p2) < Rect.x (Player.rect p1) -> ix2 < 0 < ix1).
Proof.
  intros Hp Hc Hs. unfold resolvePlayerCollisions. rewrite Hp. cbn. rewrite Hc.
  destruct (Z.gtb_spec (Rect.x (Player.rect p2)) (Rect.x (Player.rect p1))) as [Hx | Hx];
    cbn; do 2 eexists.
  - exists (- explosionSpeed), explosionSpeed. split; [reflexivity|].
    cbn. rewrite <- !app_assoc. cbn. repeat split; try reflexivity; lia.
  - exists explosionSpeed, (- explosionSpeed). split; [reflexivity|].
    cbn. rewrite <- !app_assoc. cbn. repeat split; try reflexivity; lia.
Qed.

Lemma resolvePlayerCollisions_explosion_witness :
  let a := Player.mk 1 (Rect.mk 0 0 10 10) (Physics.mk (Vector2.mk 0 0) [] []) true ∅ in
  let b := Player.mk 2 (Rect.mk 5 0 10 10) (Physics.mk (Vector2.mk 0 0) [] []) true ∅ in
  let self := mkEngine (Scene.mk [a; b] [] [] [] [] [] [] [] [] (Rect.mk 0 0 400 300))
                       (AudioComponent.mk "") [] in
  exists ph1 ph2 ix1 ix2,
    resolvePlayerCollisions self 30
    = Ok (set_players [Player.set_physics ph1 a; Player.set_physics ph2 b] self)
    /\ Physics.velocities ph1 = [("collision", AxisY, -30); ("collision", AxisX, ix1)]
    /\ Physics.velocities ph2 = [("collision", AxisY, -30); ("collision", AxisX, ix2)]
    /\ ix1 < 0 < ix2.
Proof.
  intros a b self.
  destruct (resolvePlayerCollisions_explosion self a b 30 eq_refl eq_refl eq_refl)
    as (ph1 & ph2 & ix1 & ix2 & E & V1 & V2 & _ & _ & _ & _ & _ & _ & _ & _ & Hl & _).
  exists ph1, ph2, ix1, ix2. split; [exact E|]. split; [exact V1|]. split; [exact V2|].
  apply Hl. by_eval.
Defined.

(** C7, as stated, fails for a speed that is not positive: the method
    takes any integer, and with -30 both players are sent downward and the
    player at the larger x-coordinate gets the negative horizontal
    velocity. *)
Lemma resolvePlayerCollisions_negative_speed :
  let a := Player.mk 1 (Rect.mk 0 0 10 10) (Physics.mk (Vector2.mk 0 0) [] []) true ∅ in
  let b := Player.mk 2 (Rect.mk 5 0 10 10) (Physics.mk (Vector2.mk 0 0) [] []) true ∅ in
  let self := mkEngine (Scene.mk [a; b] [] [] [] [] [] [] [] [] (Rect.mk 0 0 400 300))
                       (AudioComponent.mk "") [] in
  collide_rect a b = true
  /\ Rect.x (Player.rect a) < Rect.x (Player.rect b)
  /\ exists a' b',
       resolvePlayerCollisions self (-30) = Ok (set_players [a'; b'] self)
       /\ Physics.velocities (Player.physics a')
          = [("collision", AxisY, 30); ("collision", AxisX, 30)]
       /\ Physics.velocities (Player.physics b')
          = [("collision", AxisY, 30); ("collision", AxisX, -30)].
Proof.
  intros a b self. split; [reflexivity|]. split; [by_eval|].
  do 2 eexists. split; [reflexivity|]. split; reflexivity.
Qed.

(** ** Key presses *)

Lemma fold_left_keeps {S E T} (f : S -> E -> S) (view : S -> T) :
  (forall s e, view (f s e) = view s) ->
  forall (l : list E) (s : S), view (fold_left f l s) = view s.
Proof.
  intros Hf l. induction l as [| e l IH]; intros s; cbn; [reflexivity|].
  now rewrite IH, Hf.
Qed.

Lemma resolveDoorCollisions_keeps (self : CollisionEngine) :
  scene (resolveDoorCollisions self) = scene self
  /\ audio (resolveDoorCollisions self) = audio self.
Proof.
  unfold resolveDoorCollisions. generalize (Scene.players (scene self)). intros l.
  split.
  - apply (fold_left_keeps _ scene). intros s p.
    destruct (spritecollide p _); [reflexivity|]. now destruct (List.filter _ _).
  - apply (fold_left_keeps _ audio). intros s p.
    destruct (spritecollide p _); [reflexivity|]. now destruct (List.filter _ _).
Qed.

Lemma unpack2_other {A} (xs : list A) :
  length xs <> 2%nat -> unpack2 xs = Raise ValueError.
Proof. destruct xs as [| a [| b [| c xs]]]; cbn; congruence. Qed.


(** The handler raises only when one of two players has no binding for
    the cooperative jump: the [KeyError] of the dictionary is not caught.
    The engine is then as the door resolution left it. *)
Lemma eventHandler_raises (self : CollisionEngine) (event : Event) (e : Exn) :
  eventHandler self event = Raise e ->
  e = KeyError
  /\ exists p1 p2, Scene.players (scene self) = [p1; p2]
     /\ (Player.keybinds p1 !! "coop_jump" = None
         \/ Player.keybinds p2 !! "coop_jump" = None).
Proof.
  destruct event as [key |]; cbn [eventHandler]; [| discriminate].
  set (self0 := if key =? K_RETURN then resolveDoorCollisions self else self).
  assert (Hs : scene self0 = scene self).
  { subst self0. destruct (key =? K_RETURN); [apply resolveDoorCollisions_keeps | easy]. }
  rewrite Hs.
  destruct (Scene.players (scene self)) as [| p1 [| p2 [| p3 ps]]]; cbn; try discriminate.
  unfold getitem.
  destruct (Player.keybinds p1 !! "coop_jump") eqn:E1; cbn;
    [| intros [= <-]; split; [reflexivity | exists p1, p2; auto] ].
  destruct (Player.keybinds p2 !! "coop_jump") eqn:E2; cbn;
    [| intros [= <-]; split; [reflexivity | exists p1, p2; auto] ].
  destruct ((key =? _) || (key =? _)); cbn; [| discriminate].
  unfold resolvePlayerCollisions. rewrite Hs.
  destruct (Scene.players (scene self)) as [| q1 [| q2 [| q3 qs]]]; cbn; try discriminate.
  destruct (collide_rect q1 q2); [| discriminate].
  destruct (_ >? _); discriminate.
Qed.




(** ** Sizes of rectangles *)

Lemma sizes_map_players (f : Player.t -> Player.t) (players : list Player.t) :
  (forall p, Rect.size (Player.rect (f p)) = Rect.size (Player.rect p)) ->
  sizes (map f players) = sizes players.
Proof.
  intros Hf. unfold sizes. rewrite map_map. apply map_ext. intros p. apply Hf.
Qed.

Lemma _resolveBasicCollision_wall_size {B} `{HasRect B} (m : Player.t) (wall : B) :
  Rect.size (Player.rect (_resolveBasicCollision_wall m wall)) = Rect.size (Player.rect m).
Proof.
  unfold _resolveBasicCollision_wall.
  now destruct (_checkCollisionDirection m wall) as [[ | | | ] |].
Qed.

Lemma _resolveBasicCollision_size {B} `{HasRect B} (m : Player.t) (group : list B) :
  Rect.size (Player.rect (_resolveBasicCollision m group)) = Rect.size (Player.rect m).
Proof.
  unfold _resolveBasicCollision.
  apply (fold_left_keeps _ (fun p => Rect.size (Player.rect p))).
  intros p w. apply _resolveBasicCollision_wall_size.
Qed.

Lemma resolveDPlatformCollisions_player_size (dPlatforms : list Sprite.t) (p : Player.t) :
  Rect.size (Player.rect (resolveDPlatformCollisions_player dPlatforms p))
  = Rect.size (Player.rect p).
Proof.
  unfold resolveDPlatformCollisions_player.
  apply (fold_left_keeps _ (fun p => Rect.size (Player.rect p))).
  intros q w. unfold resolveDPlatformCollisions_platform.
  destruct (_checkCollisionDirection q w) as [[ | | | ] |]; try reflexivity.
  destruct (_ <? 30); [| reflexivity]. now destruct (_ >? 0).
Qed.

Lemma resolveMPlatformCollisions_player_size (mPlatforms : list MPlatform.t) (p : Player.t) :
  Rect.size (Player.rect (resolveMPlatformCollisions_player mPlatforms p))
  = Rect.size (Player.rect p).
Proof.
  unfold resolveMPlatformCollisions_player.
  rewrite (fold_left_keeps _ (fun p => Rect.size (Player.rect p))) by reflexivity.
  apply _resolveBasicCollision_size.
Qed.

Lemma entity_sizes_set_players (ps : list Player.t) (self : CollisionEngine) :
  sizes ps = sizes (Scene.players (scene self)) ->
  entity_sizes (scene (set_players ps self)) = entity_sizes (scene self).
Proof.
  intros E. unfold entity_sizes, set_players, set_scene, Scene.set_players.
  cbn [scene Scene.players Scene.walls Scene.sPlatforms Scene.dPlatforms Scene.mPlatforms
       Scene.switches Scene.doors Scene.spikes Scene.bosses Scene.rect].
  now rewrite E.
Qed.

Lemma resolveSwitchCollisions_sizes (self : CollisionEngine) :
  entity_sizes (scene (resolveSwitchCollisions self)) = entity_sizes (scene self).
Proof.
  unfold resolveSwitchCollisions, entity_sizes, set_scene, Scene.set_switches.
  cbn [scene Scene.players Scene.walls Scene.sPlatforms Scene.dPlatforms Scene.mPlatforms
       Scene.switches Scene.doors Scene.spikes Scene.bosses Scene.rect].
  do 5 f_equal. f_equal. unfold sizes. rewrite map_map. apply map_ext. intros s.
  destruct (Switch.isOn s); [| reflexivity].
  unfold rect_of, Switch_HasRect.
  now destruct (resolveSwitchCollisions_switch_spec (Scene.players (scene self)) s) as [-> _].
Qed.

Lemma resolveSpikeCollisions_scene (self : CollisionEngine) :
  scene (resolveSpikeCollisions self) = scene self.
Proof.
  unfold resolveSpikeCollisions. apply (fold_left_keeps _ scene).
  intros s p. now destruct (spritecollide p _).
Qed.

Lemma resolveBossCollisions_scene (self : CollisionEngine) :
  scene (resolveBossCollisions self) = scene self.
Proof.
  unfold resolveBossCollisions. apply (fold_left_keeps _ scene).
  intros s p. now destruct (spritecollide p _).
Qed.

Lemma resolveBoundaryCollision_scene (self : CollisionEngine) :
  scene (resolveBoundaryCollision self) = scene self.
Proof.
  unfold resolveBoundaryCollision.
  now destruct (resolveBoundaryCollision_fold (boundary self) (Scene.players (scene self)) self).
Qed.

Lemma resolvePlayerCollisions_sizes (self self' : CollisionEngine) (explosionSpeed : Z) :
  resolvePlayerCollisions self explosionSpeed = Ok self' ->
  entity_sizes (scene self') = entity_sizes (scene self).
Proof.
  unfold resolvePlayerCollisions.
  destruct (Scene.players (scene self)) as [| p1 [| p2 [| p3 ps]]] eqn:Ep; cbn;
    try (intros [= <-]; reflexivity).
  destruct (collide_rect p1 p2); [| intros [= <-]; reflexivity].
  destruct (_ >? _); cbn; intros [= <-];
    apply entity_sizes_set_players; now rewrite Ep.
Qed.

(** C9.  The per-tick pass and the handling of an event keep the width and
    the height of the rectangle of every player and of every obstacle, and
    of the scene: what they change of a rectangle is its position. *)
Theorem engine_keeps_sizes (audio_update : AudioComponent.t -> AudioComponent.t)
    (self : CollisionEngine) :
  entity_sizes (scene (update audio_update self)) = entity_sizes (scene self)
  /\ (forall event self', eventHandler self event = Ok self' ->
       entity_sizes (scene self') = entity_sizes (scene self))
  /\ (forall explosionSpeed self', resolvePlayerCollisions self explosionSpeed = Ok self' ->
       entity_sizes (scene self') = entity_sizes (scene self))
  /\ entity_sizes (scene (resolveDoorCollisions self)) = entity_sizes (scene self).
Proof.
  split; [| split; [| split]];
    [| | intros v self'; apply resolvePlayerCollisions_sizes
       | now destruct (resolveDoorCollisions_keeps self) as [-> _] ].
  - unfold update. cbn [scene set_audio].
    rewrite resolveBoundaryCollision_scene, resolveBossCollisions_scene,
      resolveSpikeCollisions_scene.
    unfold resolveMPlatformCollisions.
    rewrite entity_sizes_set_players
      by (apply sizes_map_players, resolveMPlatformCollisions_player_size).
    unfold resolveDPlatformCollisions.
    rewrite entity_sizes_set_players
      by (apply sizes_map_players, resolveDPlatformCollisions_player_size).
    unfold resolveSPlatformCollisions.
    rewrite entity_sizes_set_players
      by (apply sizes_map_players; intros p; apply _resolveBasicCollision_size).
    rewrite resolveSwitchCollisions_sizes.
    unfold resolveWallCollisions.
    apply entity_sizes_set_players, sizes_map_players.
    intros p. apply _resolveBasicCollision_size.
  - intros [key |] self'; cbn [eventHandler]; [| intros [= <-]; reflexivity].
    set (self0 := if key =? K_RETURN then resolveDoorCollisions self else self).
    assert (Hs : scene self0 = scene self).
    { subst self0. destruct (key =? K_RETURN); [apply resolveDoorCollisions_keeps | easy]. }
    rewrite <- Hs.
    destruct (Scene.players (scene self0)) as [| p1 [| p2 [| p3 ps]]]; cbn;
      try (intros [= <-]; reflexivity).
    unfold getitem.
    destruct (Player.keybinds p1 !! "coop_jump"); cbn; [| discriminate].
    destruct (Player.keybinds p2 !! "coop_jump"); cbn; [| discriminate].
    destruct ((key =? _) || (key =? _)); cbn; [| intros [= <-]; reflexivity].
    destruct (resolvePlayerCollisions self0 30) as [self1 | e] eqn:E1; cbn.
    + intros [= <-]. cbn. apply (resolvePlayerCollisions_sizes _ _ _ E1).
    + destruct e; [intros [= <-]; reflexivity | discriminate].
Qed.

Lemma engine_keeps_sizes_witness :
  let a := Player.mk 1 (Rect.mk 0 0 10 10) (Physics.mk (Vector2.mk 0 0) [] []) true
                     {[ "coop_jump" := 32 ]} in
  let b := Player.mk 2 (Rect.mk 5 0 10 10) (Physics.mk (Vector2.mk 0 0) [] []) true
                     {[ "coop_jump" := 47 ]} in
  let self := mkEngine (Scene.mk [a; b] [] [] [] [] [] [] [] [] (Rect.mk 0 0 400 300))
                       (AudioComponent.mk "") [] in
  exists self', eventHandler self (KEYDOWN 32) = Ok self'
    /\ entity_sizes (scene self') = entity_sizes (scene self).
Proof.
  intros a b self. eexists. split; [reflexivity|].
  destruct (engine_keeps_sizes (fun st => st) self) as (_ & H & _).
  apply (H (KEYDOWN 32)). reflexivity.
Defined.

(** * Further properties of the engine *)

(** ** The classifier, continued *)

Lemma ltb_false_degrees (a b : Angle.t) :
  Angle.self a = Angle.self b ->
  Angle.ltb a b = false <-> ~ (Angle.degrees a < Angle.degrees b)%R.
Proof.
  intros E. pose proof (Angle_ltb_degrees a b E) as L.
  destruct (Angle.ltb a b).
  - split; [discriminate | intros N; exfalso; apply N, L; reflexivity].
  - split; [intros _ Hlt; apply L in Hlt; discriminate | reflexivity].
Qed.

Lemma degrees_self (o : Vector2.t) : Angle.degrees (Angle.mk o o) = 0%R.
Proof.
  unfold Angle.degrees, Angle.angle_to, Angle.mod_full. cbn.
  replace ((Vector2.atan2 o - Vector2.atan2 o) * 180 / PI)%R with 0%R
    by (pose proof PI_RGT_0; field; lra).
  destruct (Rlt_dec 0 0); [lra | reflexivity].
Qed.

Lemma degrees_range (a : Angle.t) : (0 <= Angle.degrees a < 360)%R.
Proof. apply mod_full_range, angle_to_range. Qed.

(** The spokes of a static rectangle of positive size, in the terms of its
    half sizes. *)
Lemma spokes_ascending_ltb (w2 a h2 b : Z) :
  0 <= w2 -> 1 <= a -> 0 <= h2 -> 1 <= b ->
  let o := Vector2.mk w2 h2 in
  Angle.ltb (Angle.mk o o) (Angle.mk o (Vector2.mk (- a) h2)) = true
  /\ Angle.ltb (Angle.mk o (Vector2.mk (- a) h2)) (Angle.mk o (Vector2.mk (- a) (- b))) = true
  /\ Angle.ltb (Angle.mk o (Vector2.mk (- a) (- b))) (Angle.mk o (Vector2.mk w2 (- b))) = true.
Proof.
  intros Hw Ha Hh Hb o. subst o.
  assert (Z0 : h2 = 0 \/ 0 < h2) by lia. assert (Z1 : w2 = 0 \/ 0 < w2) by lia.
  destruct Z0, Z1; subst; repeat split; angles.
Qed.

Lemma sector_cover (x a1 a2 a3 : R) :
  (0 <= x)%R -> (0 < a1)%R -> (a1 < a2)%R -> (a2 < a3)%R ->
  ~ (0 < x /\ x < a1)%R -> ~ (a1 < x /\ x < a2)%R -> ~ (a2 < x /\ x < a3)%R ->
  ~ (a3 < x)%R ->
  (x = 0 \/ x = a1 \/ x = a2 \/ x = a3)%R.
Proof.
  intros.
  destruct (Rtotal_order x 0) as [? | [? | ?]]; [lra | tauto |].
  destruct (Rtotal_order x a1) as [? | [? | ?]]; [tauto | tauto |].
  destruct (Rtotal_order x a2) as [? | [? | ?]]; [tauto | tauto |].
  destruct (Rtotal_order x a3) as [? | [? | ?]]; [tauto | tauto | tauto].
Qed.

(** X1.  On rectangles of positive size, at most 100000 wide and high, the
    four sectors leave out nothing but their boundaries: the classifier
    returns no side exactly when the rectangles do not overlap or the
    centre-to-centre angle equals one of the four spoke angles. *)
Theorem classify_none_iff {A B} `{HasRect A} `{HasRect B} (m : A) (s : B) :
  game_sized (rect_of m) -> game_sized (rect_of s) ->
  _checkCollisionDirection m s = None
  <-> collide_rect m s = false \/ on_boundary (rect_of m) (rect_of s).
Proof.
  intros _ Hg.
  assert (Hp : Rect.positive (rect_of s)) by (destruct Hg; split; lia).
  split.
  - destruct (collide_rect m s) eqn:Hc; [| now left]. intros Hn. right.
    destruct Hp as [Hw Hh].
    unfold _checkCollisionDirection in Hn. rewrite Hc in Hn. clear Hc.
    unfold on_boundary, spokes, displacement.
    remember (rect_of s) as rs eqn:Es. remember (rect_of m) as rm eqn:Em.
    clear Es Em. destruct rs as [sx sy sw sh].
    unfold Rect.center in *.
    remember (Rect.centerx rm) as u eqn:Eu. remember (Rect.centery rm) as v eqn:Ev.
    clear Eu Ev rm.
    classifier_setup. rewrite !Z.shiftr_div_pow2 in * by lia. change (2 ^ 1) with 2 in *.
    assert (Hw2 : 0 <= sw / 2 /\ 1 <= sw - sw / 2) by (split; Z.div_mod_to_equations; lia).
    assert (Hh2 : 0 <= sh / 2 /\ 1 <= sh - sh / 2) by (split; Z.div_mod_to_equations; lia).
    remember (sw / 2) as w2 eqn:Ew2. remember (sh / 2) as h2 eqn:Eh2. clear Ew2 Eh2.
    destruct (spokes_ascending_ltb w2 (sw - w2) h2 (sh - h2)) as (A1 & A2 & A3); try lia.
    replace (sx + w2 - sx) with w2 in * by lia.
    replace (sy + h2 - sy) with h2 in * by lia.
    replace (sx + w2 - (sx + sw)) with (- (sw - w2)) in * by lia.
    replace (sy + h2 - (sy + sh)) with (- (sh - h2)) in * by lia.
    set (o := Vector2.mk w2 h2) in *.
    set (k1 := Vector2.mk (- (sw - w2)) h2) in *.
    set (k2 := Vector2.mk (- (sw - w2)) (- (sh - h2))) in *.
    set (k3 := Vector2.mk w2 (- (sh - h2))) in *.
    set (d := Vector2.mk (sx + w2 - u) (sy + h2 - v)) in *.
    apply Angle_ltb_degrees in A1, A2, A3; try reflexivity.
    rewrite degrees_self in A1.
    destruct (_ && _) eqn:E1 in Hn; [discriminate|].
    destruct (_ && _) eqn:E2 in Hn; [discriminate|].
    destruct (_ && _) eqn:E3 in Hn; [discriminate|].
    destruct (Angle.ltb _ _) eqn:E4 in Hn; [discriminate|].
    rewrite andb_false_iff, !ltb_false_degrees in E1, E2, E3 by reflexivity.
    rewrite ltb_false_degrees in E4 by reflexivity.
    rewrite degrees_self in E1.
    pose proof (degrees_range (Angle.mk o d)) as Rd.
    destruct (sector_cover (Angle.degrees (Angle.mk o d)) _ _ _ (proj1 Rd) A1 A2 A3)
      as [E | [E | [E | E]]]; try tauto.
    + exists o. split; [now left|]. now rewrite degrees_self.
    + exists k1. split; [right; now left | exact E].
    + exists k2. split; [right; right; now left | exact E].
    + exists k3. split; [right; right; right; now left | exact E].
  - intros [Hc | Hb].
    + now apply _checkCollisionDirection_apart.
    + destruct (collide_rect m s) eqn:Hc.
      * now apply classify_on_boundary.
      * now apply _checkCollisionDirection_apart.
Qed.

(** No side for the mover on the corner of C2: as the rectangles overlap,
    the theorem places the centre-to-centre direction on a spoke. *)
Lemma classify_none_iff_witness :
  let m := Rect.mk (-1) (-1) 2 2 in
  let s := Rect.mk 0 0 2 2 in
  on_boundary m s.
Proof.
  intros m s.
  destruct (proj1 (classify_none_iff m s ltac:(by_eval) ltac:(by_eval)) eq_refl) as [Hc | Hb].
  - discriminate Hc.
  - exact Hb.
Defined.

(** X2.  The spoke angles of a static rectangle of positive size are the
    ascending boundaries the sector tests take them for:
    [angle_00 = 0 < angle_10 < angle_11 < angle_01 < 360]. *)
Theorem spoke_angles_ascending (s : Rect.t) :
  Rect.positive s ->
  match map (Angle.angle_to_mod (hd (Vector2.mk 0 0) (spokes s))) (spokes s) with
  | [angle_00; angle_10; angle_11; angle_01] =>
      (Angle.degrees angle_00 = 0
       /\ 0 < Angle.degrees angle_10
       /\ Angle.degrees angle_10 < Angle.degrees angle_11
       /\ Angle.degrees angle_11 < Angle.degrees angle_01
       /\ Angle.degrees angle_01 < 360)%R
  | _ => False
  end.
Proof.
  intros [Hw Hh]. destruct s as [sx sy sw sh]. unfold spokes.
  classifier_setup. rewrite !Z.shiftr_div_pow2 by lia. change (2 ^ 1) with 2. cbn [map hd].
  assert (Hw2 : 0 <= sw / 2 /\ 1 <= sw - sw / 2) by (split; Z.div_mod_to_equations; lia).
  assert (Hh2 : 0 <= sh / 2 /\ 1 <= sh - sh / 2) by (split; Z.div_mod_to_equations; lia).
  remember (sw / 2) as w2 eqn:Ew2. remember (sh / 2) as h2 eqn:Eh2. clear Ew2 Eh2.
  destruct (spokes_ascending_ltb w2 (sw - w2) h2 (sh - h2)) as (A1 & A2 & A3); try lia.
  replace (sx + w2 - sx) with w2 by lia.
  replace (sy + h2 - sy) with h2 by lia.
  replace (sx + w2 - (sx + sw)) with (- (sw - w2)) by lia.
  replace (sy + h2 - (sy + sh)) with (- (sh - h2)) by lia.
  apply Angle_ltb_degrees in A1, A2, A3; try reflexivity.
  rewrite degrees_self in *.
  repeat split; try assumption. apply degrees_range.
Qed.

Lemma spoke_angles_ascending_witness :
  match map (Angle.angle_to_mod (Vector2.mk 5 5)) (spokes (Rect.mk 0 0 10 10)) with
  | [angle_00; angle_10; angle_11; angle_01] =>
      (Angle.degrees angle_10 < Angle.degrees angle_11)%R
  | _ => False
  end.
Proof.
  pose proof (spoke_angles_ascending (Rect.mk 0 0 10 10)) as H.
  cbn in H. cbn. apply H. by_eval.
Defined.

Lemma colliderect_translate (dx dy : Z) (a b : Rect.t) :
  Rect.colliderect (translate dx dy a) (translate dx dy b) = Rect.colliderect a b.
Proof.
  destruct a as [ax ay aw ah], b as [bx by' bw bh]. unfold translate, Rect.colliderect. cbn.
  destruct ((aw =? 0) || (ah =? 0) || (bw =? 0) || (bh =? 0)); [reflexivity|].
  rewrite <- !Z.add_assoc, !(Z.add_comm dx), !(Z.add_comm dy), !Z.add_assoc.
  rewrite !Z.add_min_distr_r, !Z.add_max_distr_r.
  repeat match goal with
  | |- context [?p + ?d <? ?q + ?d] =>
      replace (p + d <? q + d) with (p <? q)
        by (destruct (Z.ltb_spec p q), (Z.ltb_spec (p + d) (q + d)); lia || reflexivity)
  end.
  reflexivity.
Qed.

(** X3.  The class of a pair depends on the relative position of the two
    rectangles only: moving both by the same offset changes nothing. *)
Theorem classify_translate (dx dy : Z) (m s : Rect.t) :
  _checkCollisionDirection (translate dx dy m) (translate dx dy s)
  = _checkCollisionDirection m s.
Proof.
  unfold _checkCollisionDirection, collide_rect, rect_of, Rect_HasRect.
  rewrite colliderect_translate.
  destruct (Rect.colliderect m s); [| reflexivity].
  destruct m as [mx my mw mh], s as [sx sy sw sh]. unfold translate.
  classifier_setup.
  replace (sx + dx + sw ≫ 1 - (sx + dx)) with (sx + sw ≫ 1 - sx) by lia.
  replace (sy + dy + sh ≫ 1 - (sy + dy)) with (sy + sh ≫ 1 - sy) by lia.
  replace (sx + dx + sw ≫ 1 - (sx + dx + sw)) with (sx + sw ≫ 1 - (sx + sw)) by lia.
  replace (sy + dy + sh ≫ 1 - (sy + dy + sh)) with (sy + sh ≫ 1 - (sy + sh)) by lia.
  replace (sx + dx + sw ≫ 1 - (mx + dx + mw ≫ 1))
    with (sx + sw ≫ 1 - (mx + mw ≫ 1)) by lia.
  replace (sy + dy + sh ≫ 1 - (my + dy + mh ≫ 1))
    with (sy + sh ≫ 1 - (my + mh ≫ 1)) by lia.
  reflexivity.
Qed.

(** ** The Basic Resolver, continued *)

Lemma _checkCollisionDirection_overlap {A B} `{HasRect A} `{HasRect B}
    (m : A) (s : B) (d : Side) :
  _checkCollisionDirection m s = Some d -> collide_rect m s = true.
Proof.
  destruct (collide_rect m s) eqn:E; [reflexivity|].
  now rewrite (_checkCollisionDirection_apart m s E).
Qed.

(** X4.  Against a single obstacle, mover and obstacle of positive size: when
    the classifier names a side, the Basic Resolver leaves the mover beside
    the obstacle, no longer overlapping it, with the named edge on the
    facing edge of the obstacle and the velocity along that axis at 0; the
    position and the velocity on the other axis stay, and the ground flag
    is set by a bottom contact only. *)
Theorem resolveBasicCollision_separates {B} `{HasRect B}
    (m : Player.t) (wall : B) (d : Side) :
  Rect.positive (rect_of m) -> Rect.positive (rect_of wall) ->
  _checkCollisionDirection m wall = Some d ->
  let m' := _resolveBasicCollision m [wall] in
  collide_rect m' wall = false
  /\ match d with
     | Bottom =>
         Rect.bottom (Player.rect m') = Rect.top (rect_of wall)
         /\ Rect.left (Player.rect m') = Rect.left (Player.rect m)
         /\ Vector2.y (Player.velocity m') = 0
         /\ Vector2.x (Player.velocity m') = Vector2.x (Player.velocity m)
         /\ Player.isOnGround m' = true
     | Top =>
         Rect.top (Player.rect m') = Rect.bottom (rect_of wall)
         /\ Rect.left (Player.rect m') = Rect.left (Player.rect m)
         /\ Vector2.y (Player.velocity m') = 0
         /\ Vector2.x (Player.velocity m') = Vector2.x (Player.velocity m)
         /\ Player.isOnGround m' = Player.isOnGround m
     | Left =>
         Rect.left (Player.rect m') = Rect.right (rect_of wall)
         /\ Rect.top (Player.rect m') = Rect.top (Player.rect m)
         /\ Vector2.x (Player.velocity m') = 0
         /\ Vector2.y (Player.velocity m') = Vector2.y (Player.velocity m)
         /\ Player.isOnGround m' = Player.isOnGround m
     | Right =>
         Rect.right (Player.rect m') = Rect.left (rect_of wall)
         /\ Rect.top (Player.rect m') = Rect.top (Player.rect m)
         /\ Vector2.x (Player.velocity m') = 0
         /\ Vector2.y (Player.velocity m') = Vector2.y (Player.velocity m)
         /\ Player.isOnGround m' = Player.isOnGround m
     end.
Proof.
  intros Hm Hw Hd m'. subst m'.
  rewrite _resolveBasicCollision_single, (_checkCollisionDirection_overlap m wall d Hd).
  split.
  - apply _resolveBasicCollision_wall_separates; [assumption | assumption | congruence].
  - unfold _resolveBasicCollision_wall. rewrite Hd.
    destruct d; cbn;
      unfold Rect.bottom, Rect.top, Rect.left, Rect.right, Rect.set_bottom, Rect.set_top,
        Rect.set_left, Rect.set_right; cbn; repeat split; lia.
Qed.

Lemma resolveBasicCollision_separates_witness :
  let m := Player.mk 1 (Rect.mk 0 0 10 10) (Physics.mk (Vector2.mk 3 5) [] []) false ∅ in
  let floor := Sprite.mk (Rect.mk (-10) 8 30 10) in
  let m' := _resolveBasicCollision m [floor] in
  collide_rect m' floor = false
  /\ Rect.bottom (Player.rect m') = 8
  /\ Player.isOnGround m' = true.
Proof.
  intros m floor m'.
  destruct (resolveBasicCollision_separates m floor Bottom) as (Hc & Hb & _ & _ & _ & Hg);
    [by_eval | by_eval | reflexivity |].
  split; [exact Hc|]. split; [exact Hb | exact Hg].
Defined.

Lemma fold_left_rel {S E} (f : S -> E -> S) (R : S -> S -> Prop) :
  (forall s, R s s) ->
  (forall a b c, R a b -> R b c -> R a c) ->
  (forall s e, R s (f s e)) ->
  forall (l : list E) (s : S), R s (fold_left f l s).
Proof.
  intros Hr Ht Hf l. induction l as [| e l IH]; intros s; cbn; [apply Hr|].
  eapply Ht; [apply Hf | apply IH].
Qed.

Lemma corrected_refl (m : Player.t) : corrected m m.
Proof. unfold corrected. tauto. Qed.

Lemma corrected_trans (a b c : Player.t) : corrected a b -> corrected b c -> corrected a c.
Proof.
  unfold corrected. intros (A1 & A2 & A3 & A4 & A5 & A6 & A7) (B1 & B2 & B3 & B4 & B5 & B6 & B7).
  repeat split; try congruence; try tauto.
  - destruct A6, B6; [left | right | right | right]; congruence.
  - destruct A7, B7; [left | right | right | right]; congruence.
Qed.

Lemma _resolveBasicCollision_wall_corrected {B} `{HasRect B} (m : Player.t) (wall : B) :
  corrected m (_resolveBasicCollision_wall m wall).
Proof.
  unfold _resolveBasicCollision_wall, corrected.
  destruct (_checkCollisionDirection m wall) as [[ | | | ] |]; cbn; tauto.
Qed.

Lemma _resolveBasicCollision_keeps {B} `{HasRect B} (m : Player.t) (group : list B) :
  corrected m (_resolveBasicCollision m group).
Proof.
  unfold _resolveBasicCollision.
  apply fold_left_rel;
    [apply corrected_refl | apply corrected_trans | apply _resolveBasicCollision_wall_corrected].
Qed.

(** X5.  Against any group of obstacles the Basic Resolver keeps the number
    and the key bindings of the player and requests no velocity and no
    displacement; it never clears the ground flag; and each velocity
    component comes out either as it went in or as 0. *)
Theorem resolveBasicCollision_corrected {B} `{HasRect B} (m : Player.t) (group : list B) :
  let m' := _resolveBasicCollision m group in
  Player.num m' = Player.num m
  /\ Player.keybinds m' = Player.keybinds m
  /\ Physics.velocities (Player.physics m') = Physics.velocities (Player.physics m)
  /\ Physics.displacements (Player.physics m') = Physics.displacements (Player.physics m)
  /\ (Player.isOnGround m = true -> Player.isOnGround m' = true)
  /\ (Vector2.x (Player.velocity m') = Vector2.x (Player.velocity m)
      \/ Vector2.x (Player.velocity m') = 0)
  /\ (Vector2.y (Player.velocity m') = Vector2.y (Player.velocity m)
      \/ Vector2.y (Player.velocity m') = 0).
Proof. exact (_resolveBasicCollision_keeps m group). Qed.

Lemma resolveBasicCollision_corrected_witness :
  let m := Player.mk 1 (Rect.mk 0 0 10 10) (Physics.mk (Vector2.mk 3 5) [] []) true ∅ in
  let wall := Sprite.mk (Rect.mk 8 0 10 10) in
  Player.isOnGround (_resolveBasicCollision m [wall]) = true.
Proof.
  intros m wall.
  destruct (resolveBasicCollision_corrected m [wall]) as (_ & _ & _ & _ & Hg & _).
  apply Hg. reflexivity.
Defined.

(** ** Platforms, continued *)

Lemma landed_refl (p : Player.t) : landed p p.
Proof. unfold landed. pose proof (corrected_refl p). tauto. Qed.

Lemma landed_trans (a b c : Player.t) : landed a b -> landed b c -> landed a c.
Proof.
  unfold landed. intros (A0 & A1 & A2 & A3 & A4) (B0 & B1 & B2 & B3 & B4).
  split; [eapply corrected_trans; eassumption|].
  destruct A0 as (_ & _ & _ & _ & Ag & _), B0 as (_ & _ & _ & _ & Bg & _).
  repeat split; try congruence.
  - destruct A3 as [A3 | [A3 A3']], B3 as [B3 | [B3 B3']]; try lia.
  - destruct B4 as [B4 | B4]; [| now right].
    destruct A4 as [A4 | A4]; [left; congruence | right; auto].
Qed.

Lemma resolveDPlatformCollisions_platform_landed (p : Player.t) (platform : Sprite.t) :
  landed p (resolveDPlatformCollisions_platform p platform).
Proof.
  unfold resolveDPlatformCollisions_platform.
  destruct (_checkCollisionDirection p platform) as [[ | | | ] |]; try apply landed_refl.
  destruct (_ <? 30); [| apply landed_refl].
  unfold Player.velocity. cbn [Player.physics Player.set_isOnGround Player.set_rect].
  match goal with |- context [?a >? ?b] => destruct (Z.gtb_spec a b) end;
    unfold landed, corrected, Player.velocity; cbn; repeat split; auto; lia.
Qed.

Lemma resolveDPlatformCollisions_player_keeps
    (dPlatforms : list Sprite.t) (p : Player.t) :
  landed p (resolveDPlatformCollisions_player dPlatforms p).
Proof.
  unfold resolveDPlatformCollisions_player.
  apply fold_left_rel;
    [apply landed_refl | apply landed_trans | apply resolveDPlatformCollisions_platform_landed].
Qed.

(** X6.  The pass of a player over the directional platforms, however many
    it overlaps: the player keeps its horizontal position and velocity;
    the ground flag is never cleared and is set whenever the rectangle was
    moved; an upward or zero vertical velocity is kept, a downward one is
    kept or becomes 0. *)
Theorem resolveDPlatformCollisions_player_landed
    (dPlatforms : list Sprite.t) (p : Player.t) :
  let p' := resolveDPlatformCollisions_player dPlatforms p in
  Rect.left (Player.rect p') = Rect.left (Player.rect p)
  /\ Vector2.x (Player.velocity p') = Vector2.x (Player.velocity p)
  /\ (Player.isOnGround p = true -> Player.isOnGround p' = true)
  /\ (Player.rect p' = Player.rect p \/ Player.isOnGround p' = true)
  /\ (Vector2.y (Player.velocity p) <= 0 ->
      Vector2.y (Player.velocity p') = Vector2.y (Player.velocity p))
  /\ (0 < Vector2.y (Player.velocity p) ->
      Vector2.y (Player.velocity p') = Vector2.y (Player.velocity p)
      \/ Vector2.y (Player.velocity p') = 0).
Proof.
  intros p'. subst p'.
  destruct (resolveDPlatformCollisions_player_keeps dPlatforms p)
    as ((_ & _ & _ & _ & Hg & _) & Hl & Hx & Hy & Hr).
  repeat split; try assumption.
  - intros Hv. destruct Hy as [Hy | [Hy _]]; [exact Hy | lia].
  - intros Hv. destruct Hy as [Hy | [_ Hy]]; [now left | now right].
Qed.

Lemma resolveDPlatformCollisions_player_landed_witness :
  let player := Player.mk 1 (Rect.mk 0 (-8) 10 10) (Physics.mk (Vector2.mk 2 (-5)) [] []) false ∅ in
  let platform := Sprite.mk (Rect.mk (-10) 0 30 10) in
  let player' := resolveDPlatformCollisions_player [platform] player in
  Vector2.y (Player.velocity player') = -5.
Proof.
  intros player platform player'.
  destruct (resolveDPlatformCollisions_player_landed [platform] player)
    as (_ & _ & _ & _ & Hup & _).
  apply Hup. by_eval.
Defined.

Lemma carry_fold (hits : list MPlatform.t) (p : Player.t) :
  fold_left
    (fun player platform =>
       let ph := Physics.addDisplacementX "platform" (MPlatform.dx platform) (Player.physics player) in
       let ph := Physics.addDisplacementY "platform" (MPlatform.dy platform) ph in
       Player.set_physics ph player)
    hits p
  = Player.set_physics
      (Physics.mk (Physics.velocity (Player.physics p))
                  (Physics.velocities (Player.physics p))
                  (Physics.displacements (Player.physics p) ++ flat_map carried hits))
      p.
Proof.
  revert p. induction hits as [| h t IH]; intros p; cbn [fold_left flat_map].
  - rewrite app_nil_r. now destruct p as [n r [v vs ds] g kb].
  - rewrite IH. unfold Player.set_physics. cbn. f_equal. f_equal.
    now rewrite <- !app_assoc.
Qed.

(** X7.  The pass of a player over the moving platforms is the Basic
    Resolver followed by the displacement requests: the x and y
    displacement of every platform the player overlapped on entry, in the
    order of the group, are appended to the requests of the player, also
    for a platform the resolver has pushed the player out of. *)
Theorem resolveMPlatformCollisions_player_carried
    (mPlatforms : list MPlatform.t) (p : Player.t) :
  let q := _resolveBasicCollision p mPlatforms in
  let p' := resolveMPlatformCollisions_player mPlatforms p in
  Player.rect p' = Player.rect q
  /\ Player.velocity p' = Player.velocity q
  /\ Player.isOnGround p' = Player.isOnGround q
  /\ Player.num p' = Player.num p
  /\ Player.keybinds p' = Player.keybinds p
  /\ Physics.velocities (Player.physics p') = Physics.velocities (Player.physics p)
  /\ Physics.displacements (Player.physics p')
     = Physics.displacements (Player.physics p)
         ++ flat_map carried (spritecollide p mPlatforms).
Proof.
  intros q p'. subst q p'. unfold resolveMPlatformCollisions_player.
  rewrite carry_fold.
  destruct (_resolveBasicCollision_keeps p mPlatforms) as (E1 & E2 & E3 & E4 & _).
  unfold Player.velocity. cbn. rewrite E4. repeat split; assumption.
Qed.

(** ** Requests to the scene *)

Lemma spritecollide_overlaps {A B} `{HasRect A} `{HasRect B} (sprite : A) (group : list B) :
  overlaps_any sprite group = match spritecollide sprite group with [] => false | _ => true end.
Proof.
  unfold overlaps_any, spritecollide, collide_rect.
  induction group as [| s g IH]; cbn; [reflexivity|].
  destruct (Rect.colliderect (rect_of sprite) (rect_of s)); [reflexivity | exact IH].
Qed.

Lemma filter_none {A} (f : A -> bool) (l : list A) :
  (forall x, f x = false) -> List.filter f l = [].
Proof.
  intros Hf. induction l as [| x l IH]; cbn; [reflexivity|]. now rewrite Hf.
Qed.

(** A loop over the players that sends a request for the players passing a
    test on the scene: the scene and the audio component stay, and the
    requests of the passing players are appended in order. *)
Lemma message_fold (f : CollisionEngine -> Player.t -> CollisionEngine)
    (test : Scene.t -> Player.t -> bool) (msg : Player.t -> Message) :
  (forall self p,
     f self p = if test (scene self) p then messageScene (msg p) self else self) ->
  forall (players : list Player.t) (self : CollisionEngine),
    scene (fold_left f players self) = scene self
    /\ audio (fold_left f players self) = audio self
    /\ sent (fold_left f players self)
       = sent self ++ map msg (List.filter (test (scene self)) players).
Proof.
  intros Hf players. induction players as [| p ps IH]; intros self;
    cbn [fold_left List.filter map].
  - now rewrite app_nil_r.
  - rewrite Hf. destruct (test (scene self) p) eqn:Et.
    + destruct (IH (messageScene (msg p) self)) as (E1 & E2 & E3).
      cbn in *. rewrite E1, E2, E3, <- app_assoc. easy.
    + apply IH.
Qed.

Lemma resolveSpikeCollisions_fold (self : CollisionEngine) :
  scene (resolveSpikeCollisions self) = scene self
  /\ audio (resolveSpikeCollisions self) = audio self
  /\ sent (resolveSpikeCollisions self)
     = sent self
         ++ map (fun p => Death (Player.num p))
                (List.filter (fun p => overlaps_any p (Scene.spikes (scene self)))
                             (Scene.players (scene self))).
Proof.
  unfold resolveSpikeCollisions.
  apply (message_fold _ (fun sc p => overlaps_any p (Scene.spikes sc))
                      (fun p => Death (Player.num p))).
  intros s p. rewrite spritecollide_overlaps. now destruct (spritecollide p _).
Qed.

Lemma resolveBossCollisions_fold (self : CollisionEngine) :
  scene (resolveBossCollisions self) = scene self
  /\ audio (resolveBossCollisions self) = audio self
  /\ sent (resolveBossCollisions self)
     = sent self
         ++ map (fun p => Death (Player.num p))
                (List.filter (fun p => overlaps_any p (Scene.bosses (scene self)))
                             (Scene.players (scene self))).
Proof.
  unfold resolveBossCollisions.
  apply (message_fold _ (fun sc p => overlaps_any p (Scene.bosses sc))
                      (fun p => Death (Player.num p))).
  intros s p. rewrite spritecollide_overlaps. now destruct (spritecollide p _).
Qed.

Lemma resolveDoorCollisions_fold (self : CollisionEngine) :
  scene (resolveDoorCollisions self) = scene self
  /\ audio (resolveDoorCollisions self) = audio self
  /\ sent (resolveDoorCollisions self)
     = sent self
         ++ map (fun _ => Complete)
                (List.filter (fun p => overlaps_any p (Scene.doors (scene self))
                                       && negb (existsb Door.isClosed (Scene.doors (scene self))))
                             (Scene.players (scene self))).
Proof.
  unfold resolveDoorCollisions.
  apply (message_fold _ (fun sc p => overlaps_any p (Scene.doors sc)
                                     && negb (existsb Door.isClosed (Scene.doors sc)))
                      (fun _ => Complete)).
  intros s p. rewrite spritecollide_overlaps.
  assert (E : existsb Door.isClosed (Scene.doors (scene s))
              = match List.filter Door.isClosed (Scene.doors (scene s)) with
                | [] => false | _ => true end).
  { induction (Scene.doors (scene s)) as [| d ds IH]; cbn; [reflexivity|].
    destruct (Door.isClosed d); [reflexivity | exact IH]. }
  rewrite E.
  destruct (spritecollide p _); [reflexivity|]. now destruct (List.filter _ _).
Qed.

(** X8.  A spike pass sends one death request per player that overlaps at
    least one spike, carrying the number of the player, in the order of the
    players, however many spikes the player touches; it changes nothing
    else. *)
Theorem resolveSpikeCollisions_deaths (self : CollisionEngine) :
  let self' := resolveSpikeCollisions self in
  scene self' = scene self
  /\ audio self' = audio self
  /\ sent self'
     = sent self
         ++ map (fun p => Death (Player.num p))
                (List.filter (fun p => overlaps_any p (Scene.spikes (scene self)))
                             (Scene.players (scene self))).
Proof. exact (resolveSpikeCollisions_fold self). Qed.

(** X9.  A boss pass sends one death request per player that overlaps at
    least one boss, carrying the number of the player, in the order of the
    players; it changes nothing else. *)
Theorem resolveBossCollisions_deaths (self : CollisionEngine) :
  let self' := resolveBossCollisions self in
  scene self' = scene self
  /\ audio self' = audio self
  /\ sent self'
     = sent self
         ++ map (fun p => Death (Player.num p))
                (List.filter (fun p => overlaps_any p (Scene.bosses (scene self)))
                             (Scene.players (scene self))).
Proof. exact (resolveBossCollisions_fold self). Qed.

(** X10.  The door pass changes nothing but the requests.  While some door
    of the scene is closed it sends nothing, whatever the players overlap;
    once no door is closed it sends one completion request per player that
    overlaps a door. *)
Theorem resolveDoorCollisions_completion (self : CollisionEngine) :
  let self' := resolveDoorCollisions self in
  scene self' = scene self
  /\ audio self' = audio self
  /\ ((exists d, In d (Scene.doors (scene self)) /\ Door.isClosed d = true) ->
      sent self' = sent self)
  /\ ((forall d, In d (Scene.doors (scene self)) -> Door.isClosed d = false) ->
      sent self'
      = sent self
          ++ map (fun _ => Complete)
                 (List.filter (fun p => overlaps_any p (Scene.doors (scene self)))
                              (Scene.players (scene self)))).
Proof.
  intros self'. subst self'.
  destruct (resolveDoorCollisions_fold self) as (E1 & E2 & E3).
  split; [exact E1|]. split; [exact E2|]. split.
  - intros (d & Hd & Hc). rewrite E3.
    assert (Ex : existsb Door.isClosed (Scene.doors (scene self)) = true)
      by (apply existsb_exists; eauto).
    rewrite Ex. cbn [negb].
    rewrite filter_none; [now rewrite app_nil_r|]. intros p. apply andb_false_r.
  - intros Hop. rewrite E3.
    assert (Ex : existsb Door.isClosed (Scene.doors (scene self)) = false).
    { destruct (existsb _ _) eqn:Ex; [| reflexivity].
      apply existsb_exists in Ex. destruct Ex as (d & Hd & Hc).
      rewrite (Hop d Hd) in Hc. discriminate. }
    rewrite Ex. cbn [negb]. do 2 f_equal. apply filter_ext. intros p. apply andb_true_r.
Qed.

Lemma resolveDoorCollisions_completion_witness :
  let a := Player.mk 1 (Rect.mk 0 0 10 10) (Physics.mk (Vector2.mk 0 0) [] []) true ∅ in
  let opened := Door.mk (Rect.mk 5 0 10 10) false in
  let closed := Door.mk (Rect.mk 300 0 10 10) true in
  let scene1 := Scene.mk [a] [] [] [] [] [] [opened; opened] [] [] (Rect.mk 0 0 400 300) in
  let scene2 := Scene.mk [a] [] [] [] [] [] [closed; opened] [] [] (Rect.mk 0 0 400 300) in
  sent (resolveDoorCollisions (mkEngine scene1 (AudioComponent.mk "") [])) = [Complete]
  /\ sent (resolveDoorCollisions (mkEngine scene2 (AudioComponent.mk "") [])) = [].
Proof.
  intros a opened closed scene1 scene2. split.
  - destruct (resolveDoorCollisions_completion (mkEngine scene1 (AudioComponent.mk "") []))
      as (_ & _ & _ & H).
    rewrite H; [reflexivity|]. intros d [<- | [<- | []]]; reflexivity.
  - destruct (resolveDoorCollisions_completion (mkEngine scene2 (AudioComponent.mk "") []))
      as (_ & _ & H & _).
    apply H. exists closed. split; [now left | reflexivity].
Defined.

(** ** Switches, continued *)

Lemma switch_eta (s s' : Switch.t) :
  Switch.rect s' = Switch.rect s -> Switch.isOn s' = Switch.isOn s -> s' = s.
Proof. destruct s, s'. cbn. now intros -> ->. Qed.

(** A switch comes out of a pass as it went in, or turned off. *)
Lemma switch_pass_cases (players : list Player.t) (s : Switch.t) :
  switch_pass players s = s
  \/ (Switch.isOn s = true
      /\ (exists player, In player players /\ touches_moving s player)
      /\ switch_pass players s = Switch.turnOff s).
Proof.
  unfold switch_pass. destruct (Switch.isOn s) eqn:Hon; [| now left].
  destruct (resolveSwitchCollisions_switch_spec players s) as [R O].
  destruct (Switch.isOn (resolveSwitchCollisions_switch players s)) eqn:Hon'.
  - left. apply switch_eta; congruence.
  - right. split; [reflexivity|]. split.
    + destruct (proj1 O eq_refl) as [E | T]; [congruence | exact T].
    + apply switch_eta; [exact R | exact Hon'].
Qed.

Lemma switch_pass_idempotent (players : list Player.t) (s : Switch.t) :
  switch_pass players (switch_pass players s) = switch_pass players s.
Proof.
  destruct (switch_pass_cases players s) as [E | (_ & _ & E)]; rewrite E.
  - exact E.
  - reflexivity.
Qed.

(** X11.  The switch pass is idempotent: a second pass with the players
    unchanged leaves the engine as the first one made it. *)
Theorem resolveSwitchCollisions_idempotent (self : CollisionEngine) :
  resolveSwitchCollisions (resolveSwitchCollisions self) = resolveSwitchCollisions self.
Proof.
  unfold resolveSwitchCollisions, set_scene, Scene.set_switches. cbn.
  do 2 f_equal. rewrite map_map. apply map_ext. intros s.
  apply (switch_pass_idempotent (Scene.players (scene self)) s).
Qed.

(** ** The per-tick pass *)

Lemma update_scene (audio_update : AudioComponent.t -> AudioComponent.t)
    (self : CollisionEngine) :
  scene (update audio_update self)
  = Scene.set_players
      (map (tick_player (scene self)) (Scene.players (scene self)))
      (Scene.set_switches
         (map (switch_pass (Scene.players (scene (resolveWallCollisions self))))
              (Scene.switches (scene self)))
         (scene self)).
Proof.
  unfold update. cbn [scene set_audio].
  rewrite resolveBoundaryCollision_scene, resolveBossCollisions_scene,
    resolveSpikeCollisions_scene.
  unfold resolveMPlatformCollisions, resolveDPlatformCollisions, resolveSPlatformCollisions,
    resolveSwitchCollisions, resolveWallCollisions, set_players, set_scene,
    Scene.set_players, Scene.set_switches, tick_player, switch_pass.
  cbn. rewrite !map_map. reflexivity.
Qed.

Lemma corrected_ticked (p p' : Player.t) : corrected p p' -> ticked p p'.
Proof.
  unfold corrected, ticked. intros (E1 & E2 & E3 & E4 & E5 & E6 & E7).
  repeat split; try assumption. exists []. now rewrite app_nil_r.
Qed.

Lemma ticked_trans (a b c : Player.t) : ticked a b -> ticked b c -> ticked a c.
Proof.
  unfold ticked.
  intros (A1 & A2 & A3 & (ma & A4) & A5 & A6 & A7) (B1 & B2 & B3 & (mb & B4) & B5 & B6 & B7).
  repeat split; try congruence; try tauto.
  - exists (ma ++ mb). now rewrite B4, A4, app_assoc.
  - destruct A6, B6; [left | right | right | right]; congruence.
  - destruct A7, B7; [left | right | right | right]; congruence.
Qed.

Lemma resolveMPlatformCollisions_player_ticked (mPlatforms : list MPlatform.t) (p : Player.t) :
  ticked p (resolveMPlatformCollisions_player mPlatforms p).
Proof.
  unfold resolveMPlatformCollisions_player. rewrite carry_fold.
  destruct (_resolveBasicCollision_keeps p mPlatforms) as (E1 & E2 & E3 & E4 & E5 & E6 & E7).
  unfold ticked, Player.velocity in *. cbn.
  repeat split; try assumption. rewrite E4. eauto.
Qed.

Lemma tick_player_ticked (s : Scene.t) (p : Player.t) : ticked p (tick_player s p).
Proof.
  unfold tick_player.
  pose proof (_resolveBasicCollision_keeps p (Scene.walls s)) as H1.
  set (p1 := _resolveBasicCollision p (Scene.walls s)) in *.
  pose proof (_resolveBasicCollision_keeps p1 (Scene.sPlatforms s)) as H2.
  set (p2 := _resolveBasicCollision p1 (Scene.sPlatforms s)) in *.
  pose proof (resolveDPlatformCollisions_player_keeps (Scene.dPlatforms s) p2) as [H3 _].
  set (p3 := resolveDPlatformCollisions_player (Scene.dPlatforms s) p2) in *.
  pose proof (resolveMPlatformCollisions_player_ticked (Scene.mPlatforms s) p3) as H4.
  apply corrected_ticked in H1, H2, H3.
  exact (ticked_trans _ _ _ H1 (ticked_trans _ _ _ H2 (ticked_trans _ _ _ H3 H4))).
Qed.

Lemma resolveBoundaryCollision_sent (self : CollisionEngine) :
  audio (resolveBoundaryCollision self) = audio self
  /\ sent (resolveBoundaryCollision self)
     = sent self
         ++ map (fun p => Death (Player.num p))
                (List.filter (fun p => negb (Rect.contains (boundary self) (rect_of p)))
                             (Scene.players (scene self))).
Proof.
  unfold resolveBoundaryCollision.
  destruct (resolveBoundaryCollision_fold (boundary self) (Scene.players (scene self)) self)
    as (_ & E2 & E3).
  split; assumption.
Qed.

Lemma update_audio (audio_update : AudioComponent.t -> AudioComponent.t)
    (self : CollisionEngine) :
  audio (update audio_update self) = audio_update (audio self).
Proof.
  unfold update. cbn [audio set_audio]. f_equal.
  rewrite (proj1 (resolveBoundaryCollision_sent _)).
  rewrite (proj1 (proj2 (resolveBossCollisions_fold _))).
  rewrite (proj1 (proj2 (resolveSpikeCollisions_fold _))).
  reflexivity.
Qed.

(** X12.  The per-tick pass treats each player on its own, against the
    walls, the static, the directional and the moving platforms in that
    order.  Of a player it keeps the number, the key bindings and the
    velocity requests; it only appends displacement requests; it never
    clears the ground flag; and each velocity component comes out as it
    went in or as 0. *)
Theorem update_players (audio_update : AudioComponent.t -> AudioComponent.t)
    (self : CollisionEngine) :
  Scene.players (scene (update audio_update self))
  = map (tick_player (scene self)) (Scene.players (scene self))
  /\ Forall2 ticked (Scene.players (scene self))
                    (Scene.players (scene (update audio_update self))).
Proof.
  rewrite update_scene. cbn [Scene.players Scene.set_players]. split; [reflexivity|].
  induction (Scene.players (scene self)) as [| p ps IH]; cbn; constructor.
  - apply tick_player_ticked.
  - exact IH.
Qed.

(** X13.  The per-tick pass leaves every obstacle of the scene and the
    scene rectangle as they are; a switch comes out as it went in or turned
    off, never turned on; the audio component is advanced once. *)
Theorem update_scenery (audio_update : AudioComponent.t -> AudioComponent.t)
    (self : CollisionEngine) :
  let self' := update audio_update self in
  Scene.walls (scene self') = Scene.walls (scene self)
  /\ Scene.sPlatforms (scene self') = Scene.sPlatforms (scene self)
  /\ Scene.dPlatforms (scene self') = Scene.dPlatforms (scene self)
  /\ Scene.mPlatforms (scene self') = Scene.mPlatforms (scene self)
  /\ Scene.doors (scene self') = Scene.doors (scene self)
  /\ Scene.spikes (scene self') = Scene.spikes (scene self)
  /\ Scene.bosses (scene self') = Scene.bosses (scene self)
  /\ Scene.rect (scene self') = Scene.rect (scene self)
  /\ Forall2 (fun s s' => s' = s \/ (Switch.isOn s = true /\ s' = Switch.turnOff s))
             (Scene.switches (scene self)) (Scene.switches (scene self'))
  /\ audio self' = audio_update (audio self).
Proof.
  intros self'. subst self'. rewrite update_scene. cbn. repeat split.
  - induction (Scene.switches (scene self)) as [| s ss IH]; cbn; constructor; [| exact IH].
    destruct (switch_pass_cases
                (map (fun player => _resolveBasicCollision player (Scene.walls (scene self)))
                     (Scene.players (scene self))) s) as [E | (Hon & _ & E)];
      [left | right]; auto.
  - apply update_audio.
Qed.

Lemma solid_passes (self : CollisionEngine) :
  let passed :=
    resolveMPlatformCollisions (resolveDPlatformCollisions
      (resolveSPlatformCollisions (resolveSwitchCollisions (resolveWallCollisions self)))) in
  Scene.players (scene passed) = map (tick_player (scene self)) (Scene.players (scene self))
  /\ Scene.spikes (scene passed) = Scene.spikes (scene self)
  /\ Scene.bosses (scene passed) = Scene.bosses (scene self)
  /\ Scene.rect (scene passed) = Scene.rect (scene self)
  /\ sent passed = sent self.
Proof.
  unfold resolveMPlatformCollisions, resolveDPlatformCollisions, resolveSPlatformCollisions,
    resolveSwitchCollisions, resolveWallCollisions, set_players, set_scene,
    Scene.set_players, Scene.set_switches, tick_player.
  cbn. rewrite !map_map. repeat split; reflexivity.
Qed.

(** X14.  The requests of the per-tick pass are death requests only, sent
    after the platform passes and decided on the rectangles the players
    have then: first those of the players that overlap a spike, then those
    of the players that overlap a boss, then those of the players the
    boundary does not contain.  Each carries the number of a player of the
    scene. *)
Theorem update_deaths (audio_update : AudioComponent.t -> AudioComponent.t)
    (self : CollisionEngine) :
  let players' := map (tick_player (scene self)) (Scene.players (scene self)) in
  let death := fun p => Death (Player.num p) in
  exists new,
    sent (update audio_update self) = sent self ++ new
    /\ new = map death (List.filter (fun p => overlaps_any p (Scene.spikes (scene self))) players')
             ++ map death (List.filter (fun p => overlaps_any p (Scene.bosses (scene self))) players')
             ++ map death (List.filter (fun p => negb (Rect.contains (boundary self) (Player.rect p)))
                                       players')
    /\ forall m, In m new ->
         exists p, In p (Scene.players (scene self)) /\ m = Death (Player.num p).
Proof.
  intros players' death.
  destruct (solid_passes self) as (Ep & Es & Eb & Er & Em).
  set (passed := resolveMPlatformCollisions _) in *.
  destruct (resolveSpikeCollisions_fold passed) as (Ss & _ & Sm).
  destruct (resolveBossCollisions_fold (resolveSpikeCollisions passed)) as (Bs & _ & Bm).
  destruct (resolveBoundaryCollision_sent
              (resolveBossCollisions (resolveSpikeCollisions passed))) as (_ & Dm).
  assert (Ebd : boundary (resolveBossCollisions (resolveSpikeCollisions passed))
                = boundary self).
  { unfold boundary. now rewrite Bs, Ss, Er. }
  rewrite Ebd, Bs, Ss, Ep in Dm. rewrite Ss, Ep, Eb in Bm. rewrite Ep, Es in Sm.
  fold players' in Dm, Bm, Sm.
  eexists. split; [| split; [reflexivity|]].
  - unfold update. cbn [sent set_audio]. fold passed.
    rewrite Dm, Bm, Sm, Em, <- !app_assoc. reflexivity.
  - intros m Hm.
    assert (Hp : exists p', In p' players' /\ m = death p').
    { rewrite !in_app_iff, !in_map_iff in Hm.
      destruct Hm as [(p' & E & Hf) | [(p' & E & Hf) | (p' & E & Hf)]];
        apply filter_In in Hf; exists p'; split; tauto || congruence. }
    destruct Hp as (p' & Hp' & ->). subst players'.
    apply in_map_iff in Hp'. destruct Hp' as (p & <- & Hp).
    exists p. split; [exact Hp|]. unfold death. f_equal.
    now destruct (tick_player_ticked (scene self) p) as (-> & _).
Qed.

(** X15.  In the per-tick pass the switches are tested after the wall
    pass: a switch that is on is turned off exactly when some player, as
    the wall pass leaves it, overlaps the switch with a nonzero velocity. *)
Theorem update_switches (audio_update : AudioComponent.t -> AudioComponent.t)
    (self : CollisionEngine) (i : nat) (s : Switch.t) :
  nth_error (Scene.switches (scene self)) i = Some s ->
  Switch.isOn s = true ->
  exists s', nth_error (Scene.switches (scene (update audio_update self))) i = Some s'
    /\ Switch.rect s' = Switch.rect s
    /\ (Switch.isOn s' = false <->
        exists p, In p (Scene.players (scene self))
          /\ collide_rect (_resolveBasicCollision p (Scene.walls (scene self))) s = true
          /\ moving (_resolveBasicCollision p (Scene.walls (scene self)))).
Proof.
  intros Hi Hon. rewrite update_scene. cbn [Scene.switches Scene.set_players Scene.set_switches].
  rewrite nth_error_map, Hi. cbn [option_map]. eexists. split; [reflexivity|].
  unfold switch_pass. rewrite Hon.
  destruct (resolveSwitchCollisions_switch_spec
              (Scene.players (scene (resolveWallCollisions self))) s) as [R O].
  split; [exact R|]. rewrite O. unfold touches_moving.
  unfold resolveWallCollisions. cbn [scene set_players set_scene Scene.players Scene.set_players].
  split.
  - intros [E | (q & Hq & T)]; [congruence|].
    apply in_map_iff in Hq. destruct Hq as (p & <- & Hp). exists p. tauto.
  - intros (p & Hp & T). right.
    exists (_resolveBasicCollision p (Scene.walls (scene self))).
    split; [| exact T]. apply in_map_iff. eauto.
Qed.

Lemma update_switches_witness :
  let runner := Player.mk 1 (Rect.mk 0 0 10 10) (Physics.mk (Vector2.mk 4 0) [] []) true ∅ in
  let wall := Sprite.mk (Rect.mk 8 0 10 10) in
  let s := Switch.mk (Rect.mk (-5) 5 10 10) true in
  let self := mkEngine (Scene.mk [runner] [wall] [] [] [] [s] [] [] [] (Rect.mk 0 0 400 300))
                       (AudioComponent.mk "") [] in
  exists s', nth_error (Scene.switches (scene (update (fun a => a) self))) 0 = Some s'
    /\ Switch.isOn s' = true.
Proof.
  intros runner wall s self.
  destruct (update_switches (fun a => a) self 0 s eq_refl eq_refl) as (s' & Hs' & _ & Hoff).
  exists s'. split; [exact Hs'|].
  destruct (Switch.isOn s') eqn:E; [reflexivity|]. exfalso.
  destruct (proj1 Hoff eq_refl) as (p & [<- | []] & _ & [Hx | Hy]).
  - apply Hx. reflexivity.
  - apply Hy. reflexivity.
Defined.

(** ** Key presses, continued *)

(** X16.  The handler raises exactly on a key press in a scene of two
    players one of which has no cooperative-jump binding, and what it
    raises is the [KeyError] of the lookup; every other event is handled
    without an error. *)
Theorem eventHandler_raises_iff (self : CollisionEngine) (event : Event) (e : Exn) :
  eventHandler self event = Raise e
  <-> e = KeyError
      /\ (exists key, event = KEYDOWN key)
      /\ exists p1 p2, Scene.players (scene self) = [p1; p2]
         /\ (Player.keybinds p1 !! "coop_jump" = None
             \/ Player.keybinds p2 !! "coop_jump" = None).
Proof.
  split.
  - intros Hr. destruct (eventHandler_raises self event e Hr) as (He & Hp).
    split; [exact He|]. split; [| exact Hp].
    destruct event as [key |]; [eauto | discriminate Hr].
  - intros (-> & (key & ->) & p1 & p2 & Hp & Hk). cbn [eventHandler].
    set (self0 := if key =? K_RETURN then resolveDoorCollisions self else self).
    assert (Hs : scene self0 = scene self).
    { subst self0. destruct (key =? K_RETURN); [apply resolveDoorCollisions_keeps | easy]. }
    rewrite Hs, Hp. cbn. unfold getitem.
    destruct (Player.keybinds p1 !! "coop_jump") eqn:E1; cbn; [| reflexivity].
    destruct Hk as [Hk | Hk]; [congruence|]. rewrite Hk. reflexivity.
Qed.

Lemma eventHandler_raises_iff_witness :
  let a := Player.mk 1 (Rect.mk 0 0 10 10) (Physics.mk (Vector2.mk 0 0) [] []) true
                     {[ "coop_jump" := 32 ]} in
  let b := Player.mk 2 (Rect.mk 50 0 10 10) (Physics.mk (Vector2.mk 0 0) [] []) true ∅ in
  let self := mkEngine (Scene.mk [a; b] [] [] [] [] [] [] [] [] (Rect.mk 0 0 400 300))
                       (AudioComponent.mk "") [] in
  eventHandler self (KEYDOWN 7) = Raise KeyError.
Proof.
  intros a b self. apply (eventHandler_raises_iff self (KEYDOWN 7) KeyError).
  split; [reflexivity|]. split; [eauto|]. exists a, b. split; [reflexivity | now right].
Defined.

(** X17.  A key press that is neither RETURN nor the cooperative-jump key
    of a player changes nothing: not with two players that both have a
    binding, and not with any other number of players. *)
Theorem eventHandler_other_key (self : CollisionEngine) (key : Z) :
  key <> K_RETURN ->
  (length (Scene.players (scene self)) <> 2%nat
   \/ exists p1 p2 k1 k2,
        Scene.players (scene self) = [p1; p2]
        /\ Player.keybinds p1 !! "coop_jump" = Some k1
        /\ Player.keybinds p2 !! "coop_jump" = Some k2
        /\ key <> k1 /\ key <> k2) ->
  eventHandler self (KEYDOWN key) = Ok self.
Proof.
  intros Hr Hc. cbn [eventHandler].
  destruct (Z.eqb_spec key K_RETURN) as [E | _]; [contradiction|].
  destruct Hc as [Hl | (p1 & p2 & k1 & k2 & Hp & H1 & H2 & N1 & N2)].
  - now rewrite (unpack2_other _ Hl).
  - rewrite Hp. cbn. unfold getitem. rewrite H1, H2. cbn.
    destruct (Z.eqb_spec key k1); [contradiction|].
    destruct (Z.eqb_spec key k2); [contradiction|]. reflexivity.
Qed.

Lemma eventHandler_other_key_witness :
  let a := Player.mk 1 (Rect.mk 0 0 10 10) (Physics.mk (Vector2.mk 0 0) [] []) true
                     {[ "coop_jump" := 32 ]} in
  let b := Player.mk 2 (Rect.mk 5 0 10 10) (Physics.mk (Vector2.mk 0 0) [] []) true
                     {[ "coop_jump" := 47 ]} in
  let self := mkEngine (Scene.mk [a; b] [] [] [] [] [] [] [] [] (Rect.mk 0 0 400 300))
                       (AudioComponent.mk "") [] in
  eventHandler self (KEYDOWN 7) = Ok self.
Proof.
  intros a b self. apply (eventHandler_other_key self 7); [by_eval|].
  right. exists a, b, 32, 47. repeat split; by_eval.
Defined.

(** X18.  The cooperative jump as the handler runs it: with two players
    that overlap and a press of the cooperative-jump key of either, the
    door resolution of RETURN comes first, then both players get the
    requests of an explosion of speed 30, a vertical velocity of -30 and
    horizontal velocities of 30 and -30, and the audio state is set to the
    explosion; the handler sends nothing besides what the door resolution
    sent. *)
Theorem eventHandler_coop_jump (self : CollisionEngine) (key : Z)
    (p1 p2 : Player.t) (k1 k2 : Z) :
  Scene.players (scene self) = [p1; p2] ->
  collide_rect p1 p2 = true ->
  Player.keybinds p1 !! "coop_jump" = Some k1 ->
  Player.keybinds p2 !! "coop_jump" = Some k2 ->
  key = k1 \/ key = k2 ->
  let self0 := if key =? K_RETURN then resolveDoorCollisions self else self in
  exists self' q1 q2 ix,
    eventHandler self (KEYDOWN key) = Ok self'
    /\ audio self' = AudioComponent.mk "explosion"
    /\ sent self' = sent self0
    /\ Scene.players (scene self') = [q1; q2]
    /\ Player.rect q1 = Player.rect p1 /\ Player.rect q2 = Player.rect p2
    /\ Player.velocity q1 = Player.velocity p1 /\ Player.velocity q2 = Player.velocity p2
    /\ Physics.velocities (Player.physics q1)
       = Physics.velocities (Player.physics p1)
           ++ [("collision", AxisY, -30); ("collision", AxisX, - ix)]
    /\ Physics.velocities (Player.physics q2)
       = Physics.velocities (Player.physics p2)
           ++ [("collision", AxisY, -30); ("collision", AxisX, ix)]
    /\ (ix = 30 \/ ix = -30)
    /\ (ix = 30 <-> Rect.x (Player.rect p1) < Rect.x (Player.rect p2)).
Proof.
  intros Hp Hc H1 H2 Hkey self0.
  assert (Hs : scene self0 = scene self).
  { subst self0. destruct (key =? K_RETURN); [apply resolveDoorCollisions_keeps | easy]. }
  assert (Ek : (key =? k1) || (key =? k2) = true).
  { rewrite orb_true_iff, !Z.eqb_eq. exact Hkey. }
  cbn [eventHandler]. fold self0. unfold resolvePlayerCollisions.
  rewrite Hs, Hp. cbn. unfold getitem. rewrite H1, H2. cbn. rewrite Ek, Hc.
  destruct (Z.gtb_spec (Rect.x (Player.rect p2)) (Rect.x (Player.rect p1))) as [Hx | Hx]; cbn.
  - do 3 eexists. exists 30.
    do 4 (split; [reflexivity|]).
    cbn. rewrite <- !app_assoc. cbn. repeat split; try reflexivity; lia.
  - do 3 eexists. exists (-30).
    do 4 (split; [reflexivity|]).
    cbn. rewrite <- !app_assoc. cbn. repeat split; try reflexivity; lia.
Qed.

Lemma eventHandler_coop_jump_witness :
  let a := Player.mk 1 (Rect.mk 0 0 10 10) (Physics.mk (Vector2.mk 0 0) [] []) true
                     {[ "coop_jump" := 32 ]} in
  let b := Player.mk 2 (Rect.mk 5 0 10 10) (Physics.mk (Vector2.mk 0 0) [] []) true
                     {[ "coop_jump" := 47 ]} in
  let self := mkEngine (Scene.mk [a; b] [] [] [] [] [] [] [] [] (Rect.mk 0 0 400 300))
                       (AudioComponent.mk "") [] in
  exists self', eventHandler self (KEYDOWN 47) = Ok self'
    /\ audio self' = AudioComponent.mk "explosion".
Proof.
  intros a b self.
  destruct (eventHandler_coop_jump self 47 a b 32 47 eq_refl eq_refl eq_refl eq_refl
              (or_intror eq_refl))
    as (self' & _ & _ & _ & E & Ha & _).
  exists self'. split; [exact E | exact Ha].
Defined.

Lemma update_deaths_witness :
  let fallen := Player.mk 2 (Rect.mk 10 1500 10 10) (Physics.mk (Vector2.mk 0 9) [] []) false ∅ in
  let self := mkEngine (Scene.mk [fallen] [] [] [] [] [] [] [] [] (Rect.mk 0 0 400 300))
                       (AudioComponent.mk "") [] in
  exists p, In p (Scene.players (scene self))
    /\ In (Death (Player.num p)) (sent (update (fun a => a) self)).
Proof.
  intros fallen self.
  destruct (update_deaths (fun a => a) self) as (new & Es & En & Hn).
  assert (Hin : In (Death 2) new) by (rewrite En; now left).
  destruct (Hn _ Hin) as (p & Hp & Ep).
  exists p. split; [exact Hp|]. rewrite Es, <- Ep. apply in_or_app. now right.
Defined.

(** ** The hits of the Basic Resolver *)

Lemma spritecollide_app {A B} `{HasRect A} `{HasRect B} (m : A) (g1 g2 : list B) :
  spritecollide m (g1 ++ g2) = spritecollide m g1 ++ spritecollide m g2.
Proof. unfold spritecollide. apply List.filter_app. Qed.

Lemma spritecollide_again {A B} `{HasRect A} `{HasRect B} (m : A) (group : list B) :
  spritecollide m (spritecollide m group) = spritecollide m group.
Proof.
  unfold spritecollide. induction group as [| w g IH]; cbn; [reflexivity|].
  destruct (Rect.colliderect (rect_of m) (rect_of w)) eqn:E; cbn; [| exact IH].
  now rewrite E, IH.
Qed.

(** X19.  The Basic Resolver corrects only against the obstacles the mover
    overlaps on entry: the result against a group is the result against
    its hits alone, and obstacles the mover does not overlap on entry can
    be taken out of the group, wherever they stand in it (before, after or
    between the hits), without changing the result. *)
Theorem resolveBasicCollision_hits_on_entry {B} `{HasRect B}
    (m : Player.t) (before others after : list B) :
  (forall w, In w others -> collide_rect m w = false) ->
  _resolveBasicCollision m (before ++ others ++ after)
  = _resolveBasicCollision m (before ++ after)
  /\ _resolveBasicCollision m (before ++ others ++ after)
     = _resolveBasicCollision m (spritecollide m (before ++ others ++ after)).
Proof.
  intros Hn. unfold _resolveBasicCollision.
  rewrite spritecollide_again, !spritecollide_app, (spritecollide_none m others Hn).
  now split.
Qed.

Lemma resolveBasicCollision_hits_on_entry_witness :
  let m := Player.mk 1 (Rect.mk 0 0 10 10) (Physics.mk (Vector2.mk 3 5) [] []) false ∅ in
  let wall := Sprite.mk (Rect.mk 8 0 10 10) in
  let far := Sprite.mk (Rect.mk 500 500 30 10) in
  let floor := Sprite.mk (Rect.mk (-10) 8 30 10) in
  _resolveBasicCollision m [wall; far; floor] = _resolveBasicCollision m [wall; floor].
Proof.
  intros m wall far floor.
  apply (resolveBasicCollision_hits_on_entry m [wall] [far] [floor]).
  intros w [<- | []]. reflexivity.
Defined.
